(** * pureport.cli.util: building a click command tree from a client object

    A shallow embedding of [src/pureport/cli/util.py] and the properties
    its specification states about it.

    The module has four functions: the two adapters
    [__create_client_group] and [__create_client_command], which wrap a
    client function in a click callback, the discovery function
    [find_client_commands], and the tree builder [construct_commands].

    Python values are a small inductive universe; the callbacks run in a
    state-and-exception monad over the observable world (the calls made
    to client functions, standard output, click's context stack); the
    click nodes live in a store of mutable objects addressed by location,
    because [construct_commands] builds a group first and attaches its
    children to it afterwards. *)

From Stdlib Require Import ZArith String Ascii.
From stdpp Require Import base list sorting strings pretty.

Set Default Proof Using "Type".
Local Set Warnings "-register-all".

(** ** Python values *)

Inductive ParamKind := OptionParam | ArgumentParam.

(** One click parameter specification, as [@option] / [@argument] record
    it on a function. *)
Record Param := {
  param_kind : ParamKind;
  param_decls : list string;
  param_help : option string
}.

(** A Python function object: its code (an identity, which selects its
    behaviour), and the attributes [functools.update_wrapper] and click
    read. [fn_click_params] is the [__click_params__] entry of the
    function's [__dict__], absent when the function carries no click
    decorator; click's decorators append to it bottom-up. *)
Record Function := {
  fn_code : nat;
  fn_name : string;
  fn_doc : option string;
  fn_generator : bool;
  fn_click_params : option (list Param)
}.

Inductive Value :=
| VNone
| VBool (b : bool)
| VInt (n : Z)
| VStr (s : string)
| VList (items : list Value)
| VDict (entries : list (string * Value))
| VFunction (fn : Function)
| VMethod (fn : Function) (self : Value)
| VProperty (fget : Value)
| VObject (oid : nat).

Inductive Exn :=
| TypeError
| KeyError (key : string)
| AttributeError (name : string)
| RuntimeError
| ClientError (code : nat).

Inductive Outcome (A : Type) :=
| Returned (a : A)
| Raised (e : Exn).
Arguments Returned {A} a.
Arguments Raised {A} e.

(** [isinstance(f, property)] and [f.fget]. *)
Definition isinstance_property (f : Value) : bool :=
  match f with VProperty _ => true | _ => false end.

Definition fget (f : Value) : Value :=
  match f with VProperty g => g | _ => VNone end.

(** [x is not None]. *)
Definition is_not_None (v : Value) : bool :=
  match v with VNone => false | _ => true end.

(** [inspect.isfunction], [inspect.ismethod], [inspect.isgeneratorfunction]
    (the last one looks through a bound method at its function). *)
Definition isfunction (v : Value) : bool :=
  match v with VFunction _ => true | _ => false end.

Definition ismethod (v : Value) : bool :=
  match v with VMethod _ _ => true | _ => false end.

Definition isgeneratorfunction (v : Value) : bool :=
  match v with
  | VFunction fn => fn_generator fn
  | VMethod fn _ => fn_generator fn
  | _ => false
  end.

(** [isinstance(cmd, dict) and 'context' in cmd], and [cmd[key]]. *)
Definition isinstance_dict (v : Value) : bool :=
  match v with VDict _ => true | _ => false end.

Fixpoint dict_get (key : string) (entries : list (string * Value)) : option Value :=
  match entries with
  | [] => None
  | (k, v) :: rest => if String.eqb k key then Some v else dict_get key rest
  end.

Definition contains (key : string) (v : Value) : bool :=
  match v with
  | VDict entries => match dict_get key entries with Some _ => true | None => false end
  | _ => false
  end.

(** [s.startswith(p)]. *)
Fixpoint startswith (s p : string) : bool :=
  match p, s with
  | EmptyString, _ => true
  | String _ _, EmptyString => false
  | String b p', String a s' => Ascii.eqb a b && startswith s' p'
  end.

(** ** The state-and-exception monad *)

Definition SE (S A : Type) : Type := S -> Outcome A * S.

Definition ret {S A} (a : A) : SE S A := fun s => (Returned a, s).

Definition raise {S A} (e : Exn) : SE S A := fun s => (Raised e, s).

Definition bind {S A B} (m : SE S A) (k : A -> SE S B) : SE S B :=
  fun s =>
    match m s with
    | (Returned a, s') => k a s'
    | (Raised e, s') => (Raised e, s')
    end.

Declare Scope se_scope.
Delimit Scope se_scope with se.
Notation "x <- m ;; k" := (bind m (fun x => k))
  (at level 100, m at next level, right associativity) : se_scope.
Notation "m ;; k" := (bind m (fun _ => k))
  (at level 100, right associativity) : se_scope.

(** [for x in items: body(x)]. *)
Definition for_each {S A} (body : A -> SE S unit) : list A -> SE S unit :=
  fix loop (items : list A) : SE S unit :=
    match items with
    | [] => ret tt
    | x :: rest => bind (body x) (fun _ => loop rest)
    end.

(** ** The world a callback runs in *)

(** One call of a client function: the function and what it received. *)
Record CallRecord := {
  call_fn : Function;
  call_args : list Value;
  call_kwargs : list (string * Value)
}.

(** A click context; only its [obj] matters here. *)
Record Context := { ctx_obj : Value }.

(** The calls made so far, the lines written to standard output, and
    click's stack of active contexts (innermost last). A context is
    addressed by its position in the stack, so an assignment to
    [ctx.obj] is seen by whoever reads that context later. *)
Record World := {
  w_calls : list CallRecord;
  w_stdout : list string;
  w_stack : list Context
}.

Definition M := SE World.

(** ** click nodes *)

(** The two closures the adapters create: the code of [new_func] together
    with the [actual_f] it captured. *)
Inductive Closure :=
| GroupNewFunc (actual_f : Value)
| CommandNewFunc (actual_f : Value).

(** The function object of a wrapper: its closure and the attributes that
    [functools.update_wrapper] assigns and click reads. *)
Record Callback := {
  cb_code : Closure;
  cb_name : string;
  cb_doc : option string;
  cb_click_params : option (list Param);
  cb_wrapped : option Value
}.

(** The object a [def new_func] statement creates. *)
Definition def_new_func (code : Closure) : Callback :=
  {| cb_code := code; cb_name := "new_func"; cb_doc := None;
     cb_click_params := None; cb_wrapped := None |}.

(** Modelled from the spec: [functools.update_wrapper] (section 4.2,
    metadata propagation). It assigns [__name__] and [__doc__] when the
    wrapped object has them, updates the wrapper's [__dict__] with the
    wrapped object's, and sets [__wrapped__]. Functions and bound methods
    expose these attributes; for the other values of this universe the
    wrapper keeps its own (class docstrings are outside the model). *)
Definition update_wrapper (wrapper : Callback) (wrapped : Value) : Callback :=
  match wrapped with
  | VFunction fn | VMethod fn _ =>
      {| cb_code := cb_code wrapper;
         cb_name := fn_name fn;
         cb_doc := fn_doc fn;
         cb_click_params :=
           match fn_click_params fn with
           | Some ps => Some ps
           | None => cb_click_params wrapper
           end;
         cb_wrapped := Some wrapped |}
  | _ =>
      {| cb_code := cb_code wrapper;
         cb_name := cb_name wrapper;
         cb_doc := cb_doc wrapper;
         cb_click_params := cb_click_params wrapper;
         cb_wrapped := Some wrapped |}
  end.

Inductive NodeKind := CommandNode | GroupNode.

(** A [click.Command] or [click.Group] object. [node_name] is the function
    name click derives the command name from, [node_params] the parameter
    list it exposes, [node_commands] the children attached to a group by
    [add_command], in the order they were attached. *)
Record Node := {
  node_kind : NodeKind;
  node_name : string;
  node_help : option string;
  node_params : list Param;
  node_callback : Callback;
  node_commands : list nat
}.

(** The parameter list click exposes for a function carrying
    [__click_params__]: the decorators were applied bottom-up, click
    reverses them into declaration order. *)
Definition declared_params (click_params : option (list Param)) : list Param :=
  match click_params with
  | Some ps => reverse ps
  | None => []
  end.

(** Modelled from the spec: the object [click.command()(f)] or
    [click.group()(f)] makes from a function (section 6, CLI framework):
    named after the function, helped by its docstring, with the
    parameters declared on it, which are then removed from the function,
    and with the function as callback. *)
Definition make_command (kind : NodeKind) (f : Callback) : Node :=
  {| node_kind := kind;
     node_name := cb_name f;
     node_help := cb_doc f;
     node_params := declared_params (cb_click_params f);
     node_callback :=
       {| cb_code := cb_code f; cb_name := cb_name f; cb_doc := cb_doc f;
          cb_click_params := None; cb_wrapped := cb_wrapped f |};
     node_commands := [] |}.

(** ** The store of click objects *)

(** Objects are addressed by their position; a new object goes at the
    end, so a location is also the rank of its creation. *)
Abbreviation Store := (list Node).
Definition B := SE Store.

Definition new_object (n : Node) : B nat :=
  fun h => (Returned (length h), h ++ [n]).

Definition command (f : Callback) : B nat := new_object (make_command CommandNode f).
Definition group (f : Callback) : B nat := new_object (make_command GroupNode f).

Definition attach (child : nat) (n : Node) : Node :=
  {| node_kind := node_kind n; node_name := node_name n;
     node_help := node_help n; node_params := node_params n;
     node_callback := node_callback n;
     node_commands := node_commands n ++ [child] |}.

(** Modelled from the spec: [Group.add_command] (section 4.4, attaching a
    built child to its group). The group object is updated in place. *)
Definition add_command (grp child : nat) : B unit :=
  fun h => (Returned tt, alter (attach child) grp h).

(** ** The adapters *)

Definition __create_client_group (f : Value) : B nat :=
  let actual_f := if isinstance_property f then fget f else f in
  let new_func := def_new_func (GroupNewFunc actual_f) in
  let new_func := update_wrapper new_func actual_f in
  group new_func.

Definition __create_client_command (f : Value) : B nat :=
  let actual_f := if isinstance_property f then fget f else f in
  let new_func := def_new_func (CommandNewFunc actual_f) in
  let new_func := update_wrapper new_func actual_f in
  command new_func.

(** ** The tree builder *)

Local Open Scope se_scope.

(** [d[key]], continued by [k]: a missing key raises [KeyError], a value
    that is not a dict has no string subscript. *)
Definition getitem {S A} (d : Value) (key : string) (k : Value -> SE S A) : SE S A :=
  match d with
  | VDict entries =>
      (fix find (es : list (string * Value)) : SE S A :=
         match es with
         | [] => raise (KeyError key)
         | (k', v) :: rest => if String.eqb k' key then k v else find rest
         end) entries
  | _ => raise TypeError
  end.

Fixpoint characters (s : string) : list Value :=
  match s with
  | EmptyString => []
  | String c rest => VStr (String c EmptyString) :: characters rest
  end.

Definition keys (entries : list (string * Value)) : list Value :=
  map (fun e => VStr (fst e)) entries.

(** The body of the inner loop: build a child, attach it to [grp]. *)
Definition attach_all (build : Value -> B nat) (grp : nat) : list Value -> B unit :=
  for_each (fun child => child_cmd <- build child ;; add_command grp child_cmd).

(** One round of the loop of [construct_commands], up to its [yield]. The
    inner loop runs the generator of the children to its end; a list
    gives its items, a string its characters and a dict its keys, which
    are strings and so take the leaf branch. *)
Fixpoint construct_command (cmd : Value) : B nat :=
  if isinstance_dict cmd && contains "context" cmd then
    getitem cmd "context" (fun context =>
    grp <- __create_client_group context ;;
    getitem cmd "commands" (fun commands =>
    match commands with
    | VList items => attach_all construct_command grp items
    | VStr s => attach_all __create_client_command grp (characters s)
    | VDict entries => attach_all __create_client_command grp (keys entries)
    | _ => raise TypeError
    end ;;
    ret grp))
  else
    __create_client_command cmd.

(** [iter(v)] for the values of this universe. *)
Definition iter (v : Value) : Outcome (list Value) :=
  match v with
  | VList items => Returned items
  | VStr s => Returned (characters s)
  | VDict entries => Returned (keys entries)
  | _ => Raised TypeError
  end.

(** The generator object [construct_commands(commands)] returns. Nothing
    runs when it is created; between two [yield]s its whole state is the
    position of the [for] loop, kept here as the descriptors still to
    come. *)
Inductive Generator :=
| GenCreated (commands : Value)
| GenSuspended (rest : list Value)
| GenFinished.

Definition construct_commands (commands : Value) : Generator := GenCreated commands.

Definition resume (cmds : list Value) (h : Store) : Outcome (option nat) * Generator * Store :=
  match cmds with
  | [] => (Returned None, GenFinished, h)
  | cmd :: rest =>
      match construct_command cmd h with
      | (Returned node, h') => (Returned (Some node), GenSuspended rest, h')
      | (Raised e, h') => (Raised e, GenFinished, h')
      end
  end.

(** [next(gen)]: [Returned (Some node)] is a [yield], [Returned None] is
    [StopIteration]; an exception finishes the generator. *)
Definition next (g : Generator) (h : Store) : Outcome (option nat) * Generator * Store :=
  match g with
  | GenCreated commands =>
      match iter commands with
      | Returned cmds => resume cmds h
      | Raised e => (Raised e, GenFinished, h)
      end
  | GenSuspended cmds => resume cmds h
  | GenFinished => (Returned None, GenFinished, h)
  end.

(** At most [n] calls of [next], collecting what they yield; stops early
    at [StopIteration] or at an exception. *)
Fixpoint pull (n : nat) (g : Generator) (h : Store) : Outcome (list nat) * Generator * Store :=
  match n with
  | 0 => (Returned [], g, h)
  | S n' =>
      match next g h with
      | (Returned (Some node), g', h') =>
          match pull n' g' h' with
          | (Returned nodes, g'', h'') => (Returned (node :: nodes), g'', h'')
          | (Raised e, g'', h'') => (Raised e, g'', h'')
          end
      | (Returned None, g', h') => (Returned [], g', h')
      | (Raised e, g', h') => (Raised e, g', h')
      end
  end.

(** The number of [yield]s a generator still has in it. *)
Definition pending (g : Generator) : nat :=
  match g with
  | GenCreated commands =>
      match iter commands with Returned cmds => length cmds | Raised _ => 0 end
  | GenSuspended cmds => length cmds
  | GenFinished => 0
  end.

(** [list(gen)]: call [next] until [StopIteration]. *)
Definition to_list (g : Generator) (h : Store) : Outcome (list nat) * Generator * Store :=
  pull (S (pending g)) g h.

(** [for child_cmd in gen: grp.add_command(child_cmd)], driven through
    [next]; [fuel] bounds the number of rounds. *)
Fixpoint for_generator (fuel : nat) (g : Generator) (body : nat -> B unit) : B unit :=
  match fuel with
  | 0 => ret tt
  | S fuel' =>
      fun h =>
        match next g h with
        | (Returned (Some node), g', h') =>
            match body node h' with
            | (Returned _, h'') => for_generator fuel' g' body h''
            | (Raised e, h'') => (Raised e, h'')
            end
        | (Returned None, _, h') => (Returned tt, h')
        | (Raised e, _, h') => (Raised e, h')
        end
  end.

(** ** Discovery *)

(** A client object as discovery sees it: the names its [__dir__]
    reports and what [getattr] resolves a name to. *)
Record Object := {
  obj_dir : list string;
  obj_getattr : string -> Outcome Value
}.

Definition string_le (a b : string) : Prop := String.leb a b = true.

#[global] Instance string_le_dec : RelDecision string_le.
Proof. intros a b. unfold string_le. apply _. Defined.

(** The builtin [dir(obj)]: the names of [__dir__], sorted. *)
Definition dir (obj : Object) : list string := merge_sort string_le (obj_dir obj).

Fixpoint find_client_commands_loop (obj : Object) (names : list string)
    (commands : list Value) : Outcome (list Value) :=
  match names with
  | [] => Returned commands
  | name :: rest =>
      if negb (startswith name "_") then
        match obj_getattr obj name with
        | Returned attr =>
            if isgeneratorfunction attr || isfunction attr || ismethod attr
            then find_client_commands_loop obj rest (commands ++ [attr])
            else find_client_commands_loop obj rest commands
        | Raised e => Raised e
        end
      else find_client_commands_loop obj rest commands
  end.

Definition find_client_commands (obj : Object) : Outcome (list Value) :=
  find_client_commands_loop obj (dir obj) [].

(** What the specification asks of a discovered attribute (section 4.1):
    a name that does not begin with an underscore, resolving to a
    function, a bound method or a generator function. *)
Definition is_client_command (obj : Object) (name : string) : bool :=
  negb (startswith name "_") &&
  match obj_getattr obj name with
  | Returned attr => isfunction attr || ismethod attr || isgeneratorfunction attr
  | Raised _ => false
  end.

(** ** click at run time *)

(** A Python callable taking [*args] and [**kwargs] and running in the
    world. *)
Definition Callable := list Value -> list (string * Value) -> M Value.

Definition lift {S A} (o : Outcome A) : SE S A := fun s => (o, s).

(** Modelled from the spec: [click.echo] (section 6, output format). It
    writes its message to standard output as one line. *)
Definition echo (message : string) : M unit :=
  fun w =>
    (Returned tt,
     {| w_calls := w_calls w; w_stdout := w_stdout w ++ [message];
        w_stack := w_stack w |}).

(** Modelled from the spec: click's context propagation (section 6, CLI
    framework; section 9, receiver forwarding). [get_current_context]
    gives the innermost active context and fails when there is none;
    [pass_context] and [pass_obj] hand it, or its [obj], to the
    decorated function as first argument. *)
Definition get_current_context : M nat :=
  fun w =>
    match w_stack w with
    | [] => (Raised RuntimeError, w)
    | _ :: _ => (Returned (pred (length (w_stack w))), w)
    end.

Definition ctx_obj_get (ctx : nat) : M Value :=
  fun w =>
    match w_stack w !! ctx with
    | Some c => (Returned (ctx_obj c), w)
    | None => (Raised RuntimeError, w)
    end.

(** [ctx.obj = v]. *)
Definition ctx_obj_set (ctx : nat) (v : Value) : M unit :=
  fun w =>
    (Returned tt,
     {| w_calls := w_calls w; w_stdout := w_stdout w;
        w_stack := <[ctx := {| ctx_obj := v |}]> (w_stack w) |}).

Definition pass_context (f : nat -> Callable) : Callable :=
  fun args kwargs => ctx <- get_current_context ;; f ctx args kwargs.

Definition pass_obj (f : Value -> Callable) : Callable :=
  fun args kwargs =>
    ctx <- get_current_context ;;
    obj <- ctx_obj_get ctx ;;
    f obj args kwargs.

(** Modelled from the spec: how click runs a group and then one of its
    commands (section 4.3 and section 5: the ancestor groups run outer to
    inner, and a child receives the context object its group published).
    The context of the subcommand is created after the group's callback
    has run and inherits the [obj] of the group's context; it is active
    while the subcommand runs and left afterwards, also on an
    exception. *)
Definition make_context : M Context :=
  parent <- get_current_context ;;
  obj <- ctx_obj_get parent ;;
  ret {| ctx_obj := obj |}.

Definition enter (c : Context) (w : World) : World :=
  {| w_calls := w_calls w; w_stdout := w_stdout w; w_stack := w_stack w ++ [c] |}.

Definition leave (w : World) : World :=
  {| w_calls := w_calls w; w_stdout := w_stdout w;
     w_stack := take (pred (length (w_stack w))) (w_stack w) |}.

Definition with_context {A} (c : Context) (m : M A) : M A :=
  fun w => match m (enter c w) with (r, w') => (r, leave w') end.

(** ** What the specification expects to be built *)

(** A command descriptor (section 3): a bare reference, or a context with
    an ordered sequence of descriptors. *)
Inductive Descriptor :=
| Leaf (f : Value)
| Internal (context : Value) (commands : list Descriptor).

(** The Python value [cmd] is the descriptor [d]. A leaf is any value the
    builder does not take for an internal node. *)
Inductive represents : Value -> Descriptor -> Prop :=
| represents_leaf f :
    isinstance_dict f && contains "context" f = false ->
    represents f (Leaf f)
| represents_internal entries context items commands :
    dict_get "context" entries = Some context ->
    dict_get "commands" entries = Some (VList items) ->
    Forall2 represents items commands ->
    represents (VDict entries) (Internal context commands).

(** The callable an adapter wraps (sections 4.2 and 4.3): the getter of a
    property, the input itself otherwise. *)
Definition underlying (f : Value) : Value :=
  match f with VProperty getter => getter | _ => f end.

Definition name_of (u : Value) : string :=
  match u with VFunction fn | VMethod fn _ => fn_name fn | _ => "new_func" end.

Definition doc_of (u : Value) : option string :=
  match u with VFunction fn | VMethod fn _ => fn_doc fn | _ => None end.

Definition params_of (u : Value) : list Param :=
  match u with
  | VFunction fn | VMethod fn _ => declared_params (fn_click_params fn)
  | _ => []
  end.

(** The node an adapter is expected to build from [f]: it carries the
    metadata of the underlying callable and runs the wrapper around it. *)
Definition expected_node (kind : NodeKind) (f : Value) (children : list nat) : Node :=
  let u := underlying f in
  {| node_kind := kind;
     node_name := name_of u;
     node_help := doc_of u;
     node_params := params_of u;
     node_callback :=
       {| cb_code := match kind with
                     | CommandNode => CommandNewFunc u
                     | GroupNode => GroupNewFunc u
                     end;
          cb_name := name_of u; cb_doc := doc_of u;
          cb_click_params := None; cb_wrapped := Some u |};
     node_commands := children |}.

(** The number of nodes of a descriptor tree. *)
Fixpoint descriptor_size (d : Descriptor) : nat :=
  match d with
  | Leaf _ => 1
  | Internal _ ds =>
      S ((fix total (ds : list Descriptor) : nat :=
            match ds with
            | [] => 0
            | d :: ds' => descriptor_size d + total ds'
            end) ds)
  end.

Fixpoint forest_size (ds : list Descriptor) : nat :=
  match ds with
  | [] => 0
  | d :: ds' => descriptor_size d + forest_size ds'
  end.

(** Where the roots of a forest are, when its nodes are created
    depth-first from [base] on. *)
Fixpoint roots (base : nat) (ds : list Descriptor) : list nat :=
  match ds with
  | [] => []
  | d :: ds' => base :: roots (base + descriptor_size d) ds'
  end.

(** The objects a depth-first build of [d] creates, in creation order,
    the first one at location [base]: a group comes before its children,
    a child before its next sibling, and the group lists its children in
    input order. *)
Fixpoint layout (base : nat) (d : Descriptor) : list Node :=
  match d with
  | Leaf f => [expected_node CommandNode f []]
  | Internal c ds =>
      expected_node GroupNode c (roots (S base) ds) ::
      (fix forest (base : nat) (ds : list Descriptor) : list Node :=
         match ds with
         | [] => []
         | d :: ds' => layout base d ++ forest (base + descriptor_size d) ds'
         end) (S base) ds
  end.

Fixpoint layout_forest (base : nat) (ds : list Descriptor) : list Node :=
  match ds with
  | [] => []
  | d :: ds' => layout base d ++ layout_forest (base + descriptor_size d) ds'
  end.

(** A node tree as an observer sees it: what a node is, and its children
    in order, without the locations. *)
Inductive Tree := TreeNode (n : Node) (children : list Tree).

Definition detach (n : Node) : Node :=
  {| node_kind := node_kind n; node_name := node_name n;
     node_help := node_help n; node_params := node_params n;
     node_callback := node_callback n; node_commands := [] |}.

(** Reading the tree under location [l] out of the store. *)
Fixpoint read (fuel : nat) (h : Store) (l : nat) : option Tree :=
  match fuel with
  | 0 => None
  | S fuel' =>
      n ← h !! l;
      children ← mapM (read fuel' h) (node_commands n);
      Some (TreeNode (detach n) children)
  end.

Fixpoint tree_of (d : Descriptor) : Tree :=
  match d with
  | Leaf f => TreeNode (expected_node CommandNode f []) []
  | Internal c ds => TreeNode (expected_node GroupNode c []) (map tree_of ds)
  end.

Fixpoint height (d : Descriptor) : nat :=
  match d with
  | Leaf _ => 1
  | Internal _ ds => S (foldr (fun d m => max (height d) m) 0 ds)
  end.

(** The store holds [nodes] from location [base] on. *)
Definition holds (h : Store) (base : nat) (nodes : list Node) : Prop :=
  forall i n, nodes !! i = Some n -> h !! (base + i) = Some n.


(** ** A client to run the definitions on *)

(** The example of section 8 of the specification: an [accounts] property
    that gives an accounts client, whose [list] function gives one
    account. The other codes give a client function that returns nothing,
    one that returns an object JSON cannot encode, and functions that
    fail. *)
Definition accounts_getter : Function :=
  {| fn_code := 1; fn_name := "accounts"; fn_doc := Some "The accounts client.";
     fn_generator := false; fn_click_params := None |}.

Definition limit_option : Param :=
  {| param_kind := OptionParam; param_decls := ["-l"; "--limit"];
     param_help := Some "How many accounts to list." |}.

Definition filter_argument : Param :=
  {| param_kind := ArgumentParam; param_decls := ["filter"]; param_help := None |}.

Definition list_fn : Function :=
  {| fn_code := 2; fn_name := "list"; fn_doc := Some "List the accounts.";
     fn_generator := false; fn_click_params := Some [filter_argument; limit_option] |}.

Definition delete_fn : Function :=
  {| fn_code := 3; fn_name := "delete"; fn_doc := None;
     fn_generator := false; fn_click_params := None |}.

Definition stream_fn : Function :=
  {| fn_code := 4; fn_name := "stream"; fn_doc := None;
     fn_generator := true; fn_click_params := None |}.

Definition broken_fn : Function :=
  {| fn_code := 5; fn_name := "broken"; fn_doc := None;
     fn_generator := false; fn_click_params := None |}.

Definition client : Value := VObject 0.
Definition accounts_client : Value := VObject 7.

Definition demo_behaviour (history : list CallRecord) (fn : Function)
    (args : list Value) (kwargs : list (string * Value)) : Outcome Value :=
  match fn_code fn with
  | 1 => Returned accounts_client
  | 2 => Returned (VList [VDict [("id", VInt 1)]])
  | 3 => Returned VNone
  | 4 => Returned (VObject 9)
  | n => Raised (ClientError n)
  end.

(** The accounts client as discovery sees it. *)
Definition accounts_object : Object :=
  {| obj_dir := ["list"; "_session"; "stream"; "name"; "__init__"; "delete"];
     obj_getattr := fun name =>
       if String.eqb name "list" then Returned (VMethod list_fn accounts_client)
       else if String.eqb name "delete" then Returned (VMethod delete_fn accounts_client)
       else if String.eqb name "stream" then Returned (VMethod stream_fn accounts_client)
       else if String.eqb name "name" then Returned (VStr "acme")
       else if String.eqb name "_session" then Returned (VObject 3)
       else if String.eqb name "__init__" then Returned (VMethod broken_fn accounts_client)
       else Raised (AttributeError name) |}.

(** The descriptor tree of the example, with one more leaf, as Python
    values and as descriptors. *)
Definition accounts_property : Value := VProperty (VFunction accounts_getter).

Definition demo_commands : list Value :=
  [VDict [("context", accounts_property);
          ("commands", VList [VFunction list_fn; VFunction delete_fn])];
   VFunction stream_fn].

Definition demo_descriptors : list Descriptor :=
  [Internal accounts_property [Leaf (VFunction list_fn); Leaf (VFunction delete_fn)];
   Leaf (VFunction stream_fn)].

(** The world click starts a program in: no call made, nothing written,
    the root context holding [obj]. *)
Definition initial_world (obj : Value) : World :=
  {| w_calls := []; w_stdout := []; w_stack := [{| ctx_obj := obj |}] |}.

(** [json.dumps] with its default settings, on the values JSON has. *)
Definition double_quote : ascii := "034"%char.

Definition hex_digit (n : nat) : ascii :=
  default "0"%char (list_ascii_of_string "0123456789abcdef" !! n).

Definition json_escape (c : ascii) : string :=
  let n := nat_of_ascii c in
  if Nat.eqb n 34 then String "\"%char (String c EmptyString)
  else if Nat.eqb n 92 then String c (String c EmptyString)
  else if Nat.eqb n 8 then "\b"
  else if Nat.eqb n 9 then "\t"
  else if Nat.eqb n 10 then "\n"
  else if Nat.eqb n 12 then "\f"
  else if Nat.eqb n 13 then "\r"
  else if Nat.ltb n 32 || Nat.ltb 126 n then
    "\u00" +:+ String (hex_digit (n / 16)) (String (hex_digit (n mod 16)) EmptyString)
  else String c EmptyString.

Fixpoint json_escape_all (s : string) : string :=
  match s with
  | EmptyString => EmptyString
  | String c rest => json_escape c +:+ json_escape_all rest
  end.

Definition json_string (s : string) : string :=
  String double_quote (json_escape_all s +:+ String double_quote EmptyString).

Fixpoint json_encode (v : Value) : option string :=
  match v with
  | VNone => Some "null"
  | VBool true => Some "true"
  | VBool false => Some "false"
  | VInt n => Some (pretty n)
  | VStr s => Some (json_string s)
  | VList items =>
      parts ← (fix each (l : list Value) : option (list string) :=
                 match l with
                 | [] => Some []
                 | x :: rest => a ← json_encode x; b ← each rest; Some (a :: b)
                 end) items;
      Some ("[" +:+ String.concat ", " parts +:+ "]")
  | VDict entries =>
      parts ← (fix each (l : list (string * Value)) : option (list string) :=
                 match l with
                 | [] => Some []
                 | (k, x) :: rest =>
                     a ← json_encode x; b ← each rest;
                     Some ((json_string k +:+ ": " +:+ a) :: b)
                 end) entries;
      Some ("{" +:+ String.concat ", " parts +:+ "}")
  | _ => None
  end.

Definition demo_dumps (v : Value) : Outcome string :=
  match json_encode v with
  | Some s => Returned s
  | None => Raised TypeError
  end.

(** An object one of whose public attributes fails to resolve, and a
    private one that fails too. *)
Definition flaky_object : Object :=
  {| obj_dir := ["zeta"; "_hidden"; "alpha"; "beta"];
     obj_getattr := fun name =>
       if String.eqb name "alpha" then Returned (VFunction list_fn)
       else if String.eqb name "beta" then Raised (ClientError 8)
       else if String.eqb name "_hidden" then Raised (ClientError 9)
       else if String.eqb name "zeta" then Returned (VFunction delete_fn)
       else Raised (AttributeError name) |}.



(** The values Python refuses to call: [None], a bool, an int, a string,
    a list, a dict and a property object. *)
Definition not_callable (v : Value) : bool :=
  match v with
  | VNone | VBool _ | VInt _ | VStr _ | VList _ | VDict _ | VProperty _ => true
  | VFunction _ | VMethod _ _ | VObject _ => false
  end.

(** All the child locations recorded in a run of nodes. *)
Definition child_locations (nodes : list Node) : list nat :=
  concat (map node_commands nodes).

(** ** The wrappers *)

Section Invocation.

(** What the client functions do: the outcome of a call is a function
    of the code called, of what it receives and of the calls made
    before it. *)
Variable behaviour :
  list CallRecord -> Function -> list Value -> list (string * Value) -> Outcome Value.

(** [json.dumps]. *)
Variable dumps : Value -> Outcome string.

Definition invoke_function (fn : Function) (args : list Value)
    (kwargs : list (string * Value)) : M Value :=
  fun w =>
    (behaviour (w_calls w) fn args kwargs,
     {| w_calls := w_calls w ++
          [{| call_fn := fn; call_args := args; call_kwargs := kwargs |}];
        w_stdout := w_stdout w; w_stack := w_stack w |}).

(** Calling [f] with [*args] and [**kwargs]: a function is called with
    the arguments, a bound method calls its function on [self] and the
    arguments, the other values of this universe are not callable. *)
Definition call (f : Value) (args : list Value) (kwargs : list (string * Value)) : M Value :=
  match f with
  | VFunction fn => invoke_function fn args kwargs
  | VMethod fn self => invoke_function fn (self :: args) kwargs
  | _ => raise TypeError
  end.

(** [new_func] of [__create_client_group]. *)
Definition group_new_func (actual_f : Value) : Callable :=
  pass_obj (fun obj => pass_context (fun ctx args kwargs =>
    v <- call actual_f (obj :: args) kwargs ;;
    ctx_obj_set ctx v ;;
    ret VNone)).

(** [new_func] of [__create_client_command]. *)
Definition command_new_func (actual_f : Value) : Callable :=
  pass_obj (fun obj args kwargs =>
    response <- call actual_f (obj :: args) kwargs ;;
    (if is_not_None response
     then (s <- lift (dumps response) ;; echo s)
     else ret tt) ;;
    ret response).

Definition run_callback (f : Callback) : Callable :=
  match cb_code f with
  | GroupNewFunc actual_f => group_new_func actual_f
  | CommandNewFunc actual_f => command_new_func actual_f
  end.

(** Invoking a node runs its callback. *)
Definition invoke (n : Node) : Callable := run_callback (node_callback n).

(** Invoking a group and, within it, one subcommand. *)
Definition group_invoke (grp : Node) (args : list Value) (kwargs : list (string * Value))
    (subcommand : M Value) : M Value :=
  invoke grp args kwargs ;;
  sub_ctx <- make_context ;;
  with_context sub_ctx subcommand.

(** The program as click starts it: the root context holds the client
    object. *)
Definition main {A} (obj : Value) (m : M A) : Outcome A * World :=
  m (initial_world obj).

(** ** Running the wrappers *)

Lemma current_context_top (w : World) (stack : list Context) (c : Context) :
  w_stack w = stack ++ [c] ->
  get_current_context w = (Returned (length stack), w).
Proof.
  intros Hs. unfold get_current_context. rewrite Hs.
  destruct stack as [|c0 stack]; simpl; [reflexivity|].
  rewrite length_app. simpl. do 3 f_equal. lia.
Qed.

Lemma current_obj_top (w : World) (stack : list Context) (c : Context) :
  w_stack w = stack ++ [c] ->
  ctx_obj_get (length stack) w = (Returned (ctx_obj c), w).
Proof.
  intros Hs. unfold ctx_obj_get. rewrite Hs.
  by rewrite list_lookup_middle.
Qed.

Lemma pop_push (stack : list Context) (c : Context) :
  take (pred (length (stack ++ [c]))) (stack ++ [c]) = stack.
Proof. rewrite length_app, Nat.add_1_r. simpl. apply take_app_length. Qed.

Lemma pass_obj_top (f : Value -> Callable) args kwargs w stack c :
  w_stack w = stack ++ [c] ->
  pass_obj f args kwargs w = f (ctx_obj c) args kwargs w.
Proof.
  intros Hs. unfold pass_obj, bind.
  rewrite (current_context_top w stack c Hs).
  by rewrite (current_obj_top w stack c Hs).
Qed.

Lemma pass_context_top (f : nat -> Callable) args kwargs w stack c :
  w_stack w = stack ++ [c] ->
  pass_context f args kwargs w = f (length stack) args kwargs w.
Proof.
  intros Hs. unfold pass_context, bind.
  by rewrite (current_context_top w stack c Hs).
Qed.

(** The leaf wrapper, step by step, in a world whose current context
    holds [r]. *)
Lemma command_new_func_run (fn : Function) (r : Value) args kwargs w stack :
  w_stack w = stack ++ [{| ctx_obj := r |}] ->
  command_new_func (VFunction fn) args kwargs w =
  let w1 := {| w_calls := w_calls w ++
                 [{| call_fn := fn; call_args := r :: args; call_kwargs := kwargs |}];
               w_stdout := w_stdout w; w_stack := w_stack w |} in
  match behaviour (w_calls w) fn (r :: args) kwargs with
  | Returned VNone => (Returned VNone, w1)
  | Returned v =>
      match dumps v with
      | Returned s =>
          (Returned v,
           {| w_calls := w_calls w1; w_stdout := w_stdout w ++ [s];
              w_stack := w_stack w |})
      | Raised e => (Raised e, w1)
      end
  | Raised e => (Raised e, w1)
  end.
Proof.
  intros Hs. unfold command_new_func.
  rewrite (pass_obj_top _ args kwargs w stack _ Hs). simpl.
  unfold bind, call, invoke_function.
  destruct (behaviour (w_calls w) fn (r :: args) kwargs) as [v|e]; [|reflexivity].
  destruct v; simpl; try reflexivity;
    unfold lift, bind, echo; simpl;
    match goal with |- context [dumps ?x] => destruct (dumps x) end; reflexivity.
Qed.

(** The group wrapper, step by step. *)
Lemma group_new_func_run (fn : Function) (r : Value) args kwargs w stack :
  w_stack w = stack ++ [{| ctx_obj := r |}] ->
  group_new_func (VFunction fn) args kwargs w =
  let calls := w_calls w ++
                 [{| call_fn := fn; call_args := r :: args; call_kwargs := kwargs |}] in
  match behaviour (w_calls w) fn (r :: args) kwargs with
  | Returned v =>
      (Returned VNone,
       {| w_calls := calls; w_stdout := w_stdout w;
          w_stack := stack ++ [{| ctx_obj := v |}] |})
  | Raised e =>
      (Raised e, {| w_calls := calls; w_stdout := w_stdout w; w_stack := w_stack w |})
  end.
Proof.
  intros Hs. unfold group_new_func.
  rewrite (pass_obj_top _ args kwargs w stack _ Hs). simpl.
  rewrite (pass_context_top _ args kwargs w stack _ Hs).
  unfold bind, call, invoke_function.
  destruct (behaviour (w_calls w) fn (r :: args) kwargs) as [v|e]; [|reflexivity].
  unfold ctx_obj_set, ret. simpl. rewrite Hs.
  rewrite (insert_app_r_alt stack _ (length stack)) by lia.
  by rewrite Nat.sub_diag.
Qed.

(** Each adapter creates one object, the node the specification
    expects, and leaves the rest of the store alone. *)
Lemma create_client_command_builds (f : Value) (h : Store) :
  __create_client_command f h =
  (Returned (length h), h ++ [expected_node CommandNode f []]).
Proof.
  unfold __create_client_command, command, new_object, expected_node.
  destruct f; try reflexivity;
    try (simpl; destruct (fn_click_params fn); reflexivity).
  simpl. destruct f; try reflexivity;
    simpl; destruct (fn_click_params fn); reflexivity.
Qed.

Lemma create_client_group_builds (f : Value) (h : Store) :
  __create_client_group f h =
  (Returned (length h), h ++ [expected_node GroupNode f []]).
Proof.
  unfold __create_client_group, group, new_object, expected_node.
  destruct f; try reflexivity;
    try (simpl; destruct (fn_click_params fn); reflexivity).
  simpl. destruct f; try reflexivity;
    simpl; destruct (fn_click_params fn); reflexivity.
Qed.

(** C1. The command the leaf adapter builds from a function [fn], run
    with the arguments [args] and [kwargs] while the current context
    holds the receiver [r], calls [fn] once, on [r] followed by the
    arguments. When the call returns [None] nothing is written; when it
    returns another value [v], one line is written, [dumps v]. In both
    cases the command returns what the call returned. *)
Theorem leaf_command_calls_once_and_echoes
    (fn : Function) (r : Value) (args : list Value) (kwargs : list (string * Value))
    (h : Store) (w : World) (stack : list Context) :
  w_stack w = stack ++ [{| ctx_obj := r |}] ->
  exists cmd : Node,
    __create_client_command (VFunction fn) h = (Returned (length h), h ++ [cmd]) /\
    let calls := w_calls w ++
      [{| call_fn := fn; call_args := r :: args; call_kwargs := kwargs |}] in
    let result := behaviour (w_calls w) fn (r :: args) kwargs in
    (result = Returned VNone ->
     invoke cmd args kwargs w =
     (Returned VNone,
      {| w_calls := calls; w_stdout := w_stdout w; w_stack := w_stack w |})) /\
    (forall (v : Value) (s : string),
       result = Returned v -> v <> VNone -> dumps v = Returned s ->
       invoke cmd args kwargs w =
       (Returned v,
        {| w_calls := calls; w_stdout := w_stdout w ++ [s]; w_stack := w_stack w |})).
Proof.
  intros Hs. eexists. split; [apply create_client_command_builds|].
  unfold invoke, run_callback. simpl.
  rewrite (command_new_func_run fn r args kwargs w stack Hs). simpl.
  split.
  - intros ->. reflexivity.
  - intros v s -> Hv ->. destruct v; try reflexivity. congruence.
Qed.

(** C5. In the command the leaf adapter builds, an exception of the
    client function comes out as it is, after the one call and with
    nothing written; and when the function returns a value other than
    [None] that [dumps] refuses, the exception of [dumps] comes out,
    again with nothing written. *)
Theorem leaf_command_propagates_exceptions
    (fn : Function) (r : Value) (args : list Value) (kwargs : list (string * Value))
    (h : Store) (w : World) (stack : list Context) :
  w_stack w = stack ++ [{| ctx_obj := r |}] ->
  exists cmd : Node,
    __create_client_command (VFunction fn) h = (Returned (length h), h ++ [cmd]) /\
    let after := {| w_calls := w_calls w ++
                      [{| call_fn := fn; call_args := r :: args; call_kwargs := kwargs |}];
                    w_stdout := w_stdout w; w_stack := w_stack w |} in
    let result := behaviour (w_calls w) fn (r :: args) kwargs in
    (forall e : Exn,
       result = Raised e -> invoke cmd args kwargs w = (Raised e, after)) /\
    (forall (v : Value) (e : Exn),
       result = Returned v -> v <> VNone -> dumps v = Raised e ->
       invoke cmd args kwargs w = (Raised e, after)).
Proof.
  intros Hs. eexists. split; [apply create_client_command_builds|].
  unfold invoke, run_callback. simpl.
  rewrite (command_new_func_run fn r args kwargs w stack Hs). simpl.
  split.
  - intros e ->. reflexivity.
  - intros v e -> Hv ->. destruct v; try reflexivity. congruence.
Qed.

(** What a group callback can return, whatever it wraps and wherever it
    runs. *)
Lemma group_new_func_returns_none (actual_f : Value) args kwargs w x :
  (group_new_func actual_f args kwargs w).1 = Returned x -> x = VNone.
Proof.
  unfold group_new_func, pass_obj, pass_context, bind.
  destruct (get_current_context w) as [[c|e] w1] eqn:E1; [|discriminate].
  destruct (ctx_obj_get c w1) as [[o|e] w2] eqn:E2; [|discriminate].
  destruct (get_current_context w2) as [[c'|e] w3] eqn:E3; [|discriminate].
  destruct (call actual_f (o :: args) kwargs w3) as [[v|e] w4] eqn:E4; [|discriminate].
  simpl. congruence.
Qed.

(** C10. The callback of a built group never returns anything but
    [None]: run while the current context holds [r], with a function
    that returns [v], it makes the one call, stores [v] in the [obj] of
    that context and returns [None]. The callback of the command built
    from the same function returns [v]. *)
Theorem group_wrapper_returns_none
    (fn : Function) (r : Value) (args : list Value) (kwargs : list (string * Value))
    (h : Store) (w : World) (stack : list Context) (v : Value) :
  w_stack w = stack ++ [{| ctx_obj := r |}] ->
  behaviour (w_calls w) fn (r :: args) kwargs = Returned v ->
  exists grp cmd : Node,
    __create_client_group (VFunction fn) h = (Returned (length h), h ++ [grp]) /\
    __create_client_command (VFunction fn) h = (Returned (length h), h ++ [cmd]) /\
    (forall args' kwargs' w' x,
       (invoke grp args' kwargs' w').1 = Returned x -> x = VNone) /\
    invoke grp args kwargs w =
    (Returned VNone,
     {| w_calls := w_calls w ++
          [{| call_fn := fn; call_args := r :: args; call_kwargs := kwargs |}];
        w_stdout := w_stdout w;
        w_stack := stack ++ [{| ctx_obj := v |}] |}) /\
    (v = VNone \/ (exists s, dumps v = Returned s) ->
     (invoke cmd args kwargs w).1 = Returned v).
Proof.
  intros Hs Hv. do 2 eexists.
  split; [apply create_client_group_builds|].
  split; [apply create_client_command_builds|].
  unfold invoke, run_callback. simpl. split; [|split].
  - intros args' kwargs' w' x. apply group_new_func_returns_none.
  - rewrite (group_new_func_run fn r args kwargs w stack Hs). simpl.
    by rewrite Hv.
  - rewrite (command_new_func_run fn r args kwargs w stack Hs). simpl.
    rewrite Hv. intros [->|[s Hd]]; [reflexivity|].
    rewrite Hd. by destruct v.
Qed.

(** C2. The group the group adapter builds from [g], run while the
    current context holds [r], calls [g] once, on [r] and the
    arguments, writes nothing, and leaves what [g] returned in the
    context. A command built by the leaf adapter and invoked within the
    group then calls its function on what [g] returned: the receiver of
    the child is the result of [g], whatever [r] was. *)
Theorem group_publishes_context_to_children
    (g : Function) (r : Value) (args : list Value) (kwargs : list (string * Value))
    (h : Store) (w : World) (stack : list Context) (v : Value) :
  w_stack w = stack ++ [{| ctx_obj := r |}] ->
  behaviour (w_calls w) g (r :: args) kwargs = Returned v ->
  exists grp : Node,
    __create_client_group (VFunction g) h = (Returned (length h), h ++ [grp]) /\
    let g_call := {| call_fn := g; call_args := r :: args; call_kwargs := kwargs |} in
    invoke grp args kwargs w =
    (Returned VNone,
     {| w_calls := w_calls w ++ [g_call]; w_stdout := w_stdout w;
        w_stack := stack ++ [{| ctx_obj := v |}] |}) /\
    forall (f : Function) (cargs : list Value) (ckwargs : list (string * Value))
           (hc : Store),
    exists child : Node,
      __create_client_command (VFunction f) hc = (Returned (length hc), hc ++ [child]) /\
      let f_call := {| call_fn := f; call_args := v :: cargs; call_kwargs := ckwargs |} in
      let run := group_invoke grp args kwargs (invoke child cargs ckwargs) w in
      w_calls run.2 = w_calls w ++ [g_call; f_call] /\
      run.1 = (command_new_func (VFunction f) cargs ckwargs
                 {| w_calls := w_calls w ++ [g_call]; w_stdout := w_stdout w;
                    w_stack := (stack ++ [{| ctx_obj := v |}]) ++ [{| ctx_obj := v |}] |}).1 /\
      w_stack run.2 = stack ++ [{| ctx_obj := v |}].
Proof.
  intros Hs Hv. eexists. split; [apply create_client_group_builds|].
  assert (Hg : invoke (expected_node GroupNode (VFunction g) []) args kwargs w =
    (Returned VNone,
     {| w_calls := w_calls w ++
          [{| call_fn := g; call_args := r :: args; call_kwargs := kwargs |}];
        w_stdout := w_stdout w; w_stack := stack ++ [{| ctx_obj := v |}] |})).
  { unfold invoke, run_callback. simpl.
    rewrite (group_new_func_run g r args kwargs w stack Hs). simpl.
    by rewrite Hv. }
  split; [exact Hg|].
  intros f cargs ckwargs hc. eexists.
  split; [apply create_client_command_builds|].
  unfold group_invoke, bind. rewrite Hg.
  set (w1 := {| w_calls := _; w_stdout := _; w_stack := stack ++ [{| ctx_obj := v |}] |}).
  unfold make_context, bind.
  rewrite (current_context_top w1 stack {| ctx_obj := v |} eq_refl).
  rewrite (current_obj_top w1 stack {| ctx_obj := v |} eq_refl).
  unfold ret, with_context, enter. simpl.
  unfold invoke at 1 2 3, run_callback. simpl.
  set (w2 := {| w_calls := _; w_stdout := _; w_stack := (stack ++ _) ++ _ |}).
  rewrite (command_new_func_run f v cargs ckwargs w2 (stack ++ [{| ctx_obj := v |}]) eq_refl).
  simpl.
  destruct (behaviour _ f (v :: cargs) ckwargs) as [x|e]; simpl;
    [destruct x; simpl; try (destruct (dumps _); simpl)|];
    rewrite pop_push, <- ?app_assoc; auto.
Qed.

(** C8. Both adapters wrap the getter of a property, and any other
    input as it is: that is the callable the closure of the built node
    captures, the one recorded as wrapped, and the one the node runs. *)
Theorem adapters_unwrap_property (f : Value) (h : Store) :
  let actual_f := match f with VProperty getter => getter | _ => f end in
  exists grp cmd : Node,
    __create_client_group f h = (Returned (length h), h ++ [grp]) /\
    __create_client_command f h = (Returned (length h), h ++ [cmd]) /\
    cb_code (node_callback grp) = GroupNewFunc actual_f /\
    cb_code (node_callback cmd) = CommandNewFunc actual_f /\
    cb_wrapped (node_callback grp) = Some actual_f /\
    cb_wrapped (node_callback cmd) = Some actual_f /\
    invoke grp = group_new_func actual_f /\
    invoke cmd = command_new_func actual_f.
Proof.
  simpl. do 2 eexists.
  split; [apply create_client_group_builds|].
  split; [apply create_client_command_builds|].
  repeat split.
Qed.

End Invocation.

(** ** Building the tree *)

Lemma bind_returned {S A B} (m : SE S A) (k : A -> SE S B) (s s' : S) (a : A) :
  m s = (Returned a, s') -> bind m k s = k a s'.
Proof. intros H. unfold bind. by rewrite H. Qed.

Lemma bind_raised {S A B} (m : SE S A) (k : A -> SE S B) (s s' : S) (e : Exn) :
  m s = (Raised e, s') -> bind m k s = (Raised e, s').
Proof. intros H. unfold bind. by rewrite H. Qed.

Lemma getitem_found {S A} (entries : list (string * Value)) (key : string)
    (k : Value -> SE S A) (v : Value) :
  dict_get key entries = Some v -> getitem (VDict entries) key k = k v.
Proof.
  simpl. induction entries as [|[k' x] rest IH]; simpl; [discriminate|].
  destruct (String.eqb k' key); [congruence|exact IH].
Qed.

Lemma getitem_missing {S A} (entries : list (string * Value)) (key : string)
    (k : Value -> SE S A) :
  dict_get key entries = None -> getitem (VDict entries) key k = raise (KeyError key).
Proof.
  simpl. induction entries as [|[k' x] rest IH]; simpl; [reflexivity|].
  destruct (String.eqb k' key); [discriminate|exact IH].
Qed.

(** The two branches of the loop body. *)
Lemma construct_command_leaf (cmd : Value) :
  isinstance_dict cmd && contains "context" cmd = false ->
  construct_command cmd = __create_client_command cmd.
Proof.
  intros H. destruct cmd; try reflexivity.
  change (construct_command (VDict entries)) with
    (if isinstance_dict (VDict entries) && contains "context" (VDict entries)
     then getitem (VDict entries) "context" (fun context =>
            grp <- __create_client_group context ;;
            getitem (VDict entries) "commands" (fun commands =>
              match commands with
              | VList items => attach_all construct_command grp items
              | VStr s => attach_all __create_client_command grp (characters s)
              | VDict entries => attach_all __create_client_command grp (keys entries)
              | _ => raise TypeError
              end ;;
              ret grp))
     else __create_client_command (VDict entries)).
  by rewrite H.
Qed.

Lemma construct_command_internal (entries : list (string * Value)) (context : Value) :
  dict_get "context" entries = Some context ->
  construct_command (VDict entries) =
  (grp <- __create_client_group context ;;
   getitem (VDict entries) "commands" (fun commands =>
     match commands with
     | VList items => attach_all construct_command grp items
     | VStr s => attach_all __create_client_command grp (characters s)
     | VDict entries => attach_all __create_client_command grp (keys entries)
     | _ => raise TypeError
     end ;;
     ret grp)).
Proof.
  intros H.
  change (construct_command (VDict entries)) with
    (if isinstance_dict (VDict entries) && contains "context" (VDict entries)
     then getitem (VDict entries) "context" (fun context =>
            grp <- __create_client_group context ;;
            getitem (VDict entries) "commands" (fun commands =>
              match commands with
              | VList items => attach_all construct_command grp items
              | VStr s => attach_all __create_client_command grp (characters s)
              | VDict entries => attach_all __create_client_command grp (keys entries)
              | _ => raise TypeError
              end ;;
              ret grp))
     else __create_client_command (VDict entries)).
  simpl isinstance_dict. simpl contains. rewrite H. simpl andb. cbv iota.
  by rewrite (getitem_found entries "context" _ context H).
Qed.

Lemma Descriptor_forall_ind (P : Descriptor -> Prop) :
  (forall f, P (Leaf f)) ->
  (forall c ds, Forall P ds -> P (Internal c ds)) ->
  forall d, P d.
Proof.
  intros Hleaf Hint. fix IH 1. intros [f|c ds]; [apply Hleaf|].
  apply Hint. induction ds as [|d ds IHds].
  - apply Forall_nil_2.
  - apply Forall_cons_2; [apply IH|apply IHds].
Qed.

Lemma descriptor_size_internal (c : Value) (ds : list Descriptor) :
  descriptor_size (Internal c ds) = S (forest_size ds).
Proof. reflexivity. Qed.

Lemma layout_internal (base : nat) (c : Value) (ds : list Descriptor) :
  layout base (Internal c ds) =
  expected_node GroupNode c (roots (S base) ds) :: layout_forest (S base) ds.
Proof. reflexivity. Qed.

Lemma layout_forest_length (ds : list Descriptor) :
  Forall (fun d => forall base, length (layout base d) = descriptor_size d) ds ->
  forall base, length (layout_forest base ds) = forest_size ds.
Proof.
  induction 1 as [|d ds Hd _ IH]; intros base; simpl; [reflexivity|].
  by rewrite length_app, Hd, IH.
Qed.

Lemma layout_length (d : Descriptor) (base : nat) :
  length (layout base d) = descriptor_size d.
Proof.
  revert base. induction d as [f|c ds IH] using Descriptor_forall_ind; intros base.
  - reflexivity.
  - rewrite layout_internal, descriptor_size_internal. simpl.
    by rewrite layout_forest_length.
Qed.

Lemma layout_forest_size (ds : list Descriptor) (base : nat) :
  length (layout_forest base ds) = forest_size ds.
Proof.
  apply layout_forest_length, Forall_forall. intros d _ b. apply layout_length.
Qed.

Lemma alter_attach_group (h rest : Store) (c : Value) (attached : list nat) (child : nat) :
  alter (attach child) (length h) (h ++ expected_node GroupNode c attached :: rest) =
  h ++ expected_node GroupNode c (attached ++ [child]) :: rest.
Proof.
  rewrite (alter_app_r_alt _ h _ (length h)) by lia.
  by rewrite Nat.sub_diag.
Qed.

Lemma add_command_group (h rest : Store) (c : Value) (attached : list nat) (child : nat) :
  add_command (length h) child (h ++ expected_node GroupNode c attached :: rest) =
  (Returned tt, h ++ expected_node GroupNode c (attached ++ [child]) :: rest).
Proof. unfold add_command. by rewrite alter_attach_group. Qed.

Lemma attach_all_cons (build : Value -> B nat) (grp : nat) (x : Value) (rest : list Value) :
  attach_all build grp (x :: rest) =
  ((child_cmd <- build x ;; add_command grp child_cmd) ;; attach_all build grp rest).
Proof. reflexivity. Qed.

(** The inner loop: the children are built one after the other behind the
    group and the objects built so far, and each is attached to the group
    as soon as it is built. *)
Lemma attach_all_layout (c : Value) (ds : list Descriptor) :
  Forall (fun d => forall cmd h, represents cmd d ->
            construct_command cmd h = (Returned (length h), h ++ layout (length h) d)) ds ->
  forall items, Forall2 represents items ds ->
  forall (h : Store) (attached : list nat) (built : list Node),
    attach_all construct_command (length h) items
      (h ++ expected_node GroupNode c attached :: built) =
    (Returned tt,
     h ++ expected_node GroupNode c
            (attached ++ roots (length h + S (length built)) ds)
       :: built ++ layout_forest (length h + S (length built)) ds).
Proof.
  intros IH items Hrep. induction Hrep as [|cmd d items ds Hcmd _ IHrep];
    intros h attached built.
  - simpl. by rewrite !app_nil_r.
  - apply Forall_cons in IH as [IHd IHds]. specialize (IHrep IHds).
    rewrite attach_all_cons.
    set (s := h ++ expected_node GroupNode c attached :: built).
    assert (Hlen : length s = length h + S (length built)).
    { unfold s. rewrite length_app. reflexivity. }
    rewrite (bind_returned _ _ s
               (h ++ expected_node GroupNode c (attached ++ [length s])
                  :: built ++ layout (length s) d) tt).
    + rewrite IHrep. rewrite Hlen, length_app, layout_length. simpl roots.
      simpl layout_forest.
      replace (length h + S (length built + descriptor_size d))
        with (length h + S (length built) + descriptor_size d) by lia.
      by rewrite <- !app_assoc.
    + rewrite (bind_returned _ _ s (s ++ layout (length s) d) (length s))
        by (apply IHd, Hcmd).
      unfold s. rewrite <- app_assoc. simpl. apply add_command_group.
Qed.

(** One round of the loop builds the whole tree of its descriptor,
    depth-first, and yields its root. *)
Lemma construct_command_layout (d : Descriptor) :
  forall (cmd : Value) (h : Store),
    represents cmd d ->
    construct_command cmd h = (Returned (length h), h ++ layout (length h) d).
Proof.
  induction d as [f|c ds IH] using Descriptor_forall_ind; intros cmd h Hrep.
  - inversion Hrep; subst.
    rewrite construct_command_leaf by assumption.
    apply create_client_command_builds.
  - inversion Hrep as [|entries c' items ds' Hctx Hcmds Hitems]; subst.
    rewrite (construct_command_internal entries c Hctx).
    rewrite (bind_returned _ _ h (h ++ [expected_node GroupNode c []]) (length h))
      by apply create_client_group_builds.
    rewrite (getitem_found entries "commands" _ (VList items) Hcmds).
    rewrite (bind_returned _ _ _
               (h ++ expected_node GroupNode c ([] ++ roots (length h + 1) ds)
                  :: [] ++ layout_forest (length h + 1) ds) tt)
      by apply (attach_all_layout c ds IH items Hitems h [] []).
    rewrite layout_internal. simpl. by rewrite Nat.add_1_r.
Qed.

Lemma pull_suspended (k : nat) :
  forall (items : list Value) (ds : list Descriptor) (h : Store),
    Forall2 represents items ds -> k <= length ds ->
    pull k (GenSuspended items) h =
    (Returned (roots (length h) (take k ds)), GenSuspended (drop k items),
     h ++ layout_forest (length h) (take k ds)).
Proof.
  induction k as [|k IH]; intros items ds h Hrep Hk.
  - simpl. by rewrite app_nil_r.
  - destruct Hrep as [|cmd d items ds Hcmd Hrep]; simpl in Hk; [lia|].
    simpl pull. rewrite (construct_command_layout d cmd h Hcmd).
    rewrite (IH items ds _ Hrep) by lia.
    rewrite length_app, layout_length. simpl. by rewrite <- app_assoc.
Qed.

Lemma pull_exhausts (items : list Value) (ds : list Descriptor) :
  Forall2 represents items ds ->
  forall (h : Store) (extra : nat),
    pull (S (length items + extra)) (GenSuspended items) h =
    (Returned (roots (length h) ds), GenFinished, h ++ layout_forest (length h) ds).
Proof.
  induction 1 as [|cmd d items ds Hcmd Hrep IH]; intros h extra.
  - simpl. by rewrite app_nil_r.
  - simpl length. simpl Nat.add.
    change (pull (S (S (length items + extra))) (GenSuspended (cmd :: items)) h)
      with (match resume (cmd :: items) h with
            | (Returned (Some node), g', h') =>
                match pull (S (length items + extra)) g' h' with
                | (Returned nodes, g'', h'') => (Returned (node :: nodes), g'', h'')
                | (Raised e, g'', h'') => (Raised e, g'', h'')
                end
            | (Returned None, g', h') => (Returned [], g', h')
            | (Raised e, g', h') => (Raised e, g', h')
            end).
    simpl resume. rewrite (construct_command_layout d cmd h Hcmd).
    rewrite IH. rewrite length_app, layout_length. simpl. by rewrite <- app_assoc.
Qed.

(** ** The inner loop is a loop over the generator of the children *)

Lemma for_each_ext {S A} (f g : A -> SE S unit) (items : list A) :
  Forall (fun x => f x = g x) items -> for_each f items = for_each g items.
Proof.
  induction 1 as [|x items Hx _ IH]; [reflexivity|].
  simpl. by rewrite Hx, IH.
Qed.

Lemma for_generator_suspended (body : nat -> B unit) (items : list Value) :
  forall (fuel : nat) (h : Store),
    length items < fuel ->
    for_generator fuel (GenSuspended items) body h =
    for_each (fun child => bind (construct_command child) body) items h.
Proof.
  induction items as [|cmd items IH]; intros [|fuel] h Hfuel; simpl in Hfuel; try lia.
  - reflexivity.
  - simpl. unfold bind at 1 2.
    destruct (construct_command cmd h) as [[node|e] h1]; [|reflexivity].
    destruct (body node h1) as [[[]|e] h2]; [|reflexivity].
    apply IH. lia.
Qed.

(** [construct_command] writes the loop over the children directly over
    the items; that is the loop
    [for child_cmd in construct_commands(commands): grp.add_command(child_cmd)]
    run through [next]. *)
Lemma inner_loop_is_generator_loop (commands : Value) (grp : nat) (h : Store) :
  match commands with
  | VList items => attach_all construct_command grp items
  | VStr s => attach_all __create_client_command grp (characters s)
  | VDict entries => attach_all __create_client_command grp (keys entries)
  | _ => raise TypeError
  end h =
  let gen := construct_commands commands in
  for_generator (S (pending gen)) gen (add_command grp) h.
Proof.
  assert (Hleaves : forall items : list Value,
            Forall (fun x => isinstance_dict x = false) items ->
            attach_all __create_client_command grp items h =
            for_generator (S (length items)) (GenSuspended items) (add_command grp) h).
  { intros items Hitems. rewrite for_generator_suspended by lia.
    unfold attach_all.
    rewrite (for_each_ext
               (fun child => bind (__create_client_command child)
                               (fun child_cmd => add_command grp child_cmd))
               (fun child => bind (construct_command child) (add_command grp)) items);
      [reflexivity|].
    eapply Forall_impl; [exact Hitems|]. simpl. intros x Hx.
    by rewrite (construct_command_leaf x) by (by rewrite Hx). }
  destruct commands as [| | |s|items|entries| | | |]; try reflexivity.
  - cbv zeta. unfold construct_commands. simpl pending.
    change (for_generator (S (length (characters s))) (GenCreated (VStr s))
              (add_command grp) h)
      with (for_generator (S (length (characters s))) (GenSuspended (characters s))
              (add_command grp) h).
    apply Hleaves. induction s; constructor; [reflexivity|assumption].
  - cbv zeta. unfold construct_commands. simpl pending.
    change (for_generator (S (length items)) (GenCreated (VList items))
              (add_command grp) h)
      with (for_generator (S (length items)) (GenSuspended items) (add_command grp) h).
    rewrite for_generator_suspended; [reflexivity|lia].
  - cbv zeta. unfold construct_commands. simpl pending.
    change (for_generator (S (length (keys entries))) (GenCreated (VDict entries))
              (add_command grp) h)
      with (for_generator (S (length (keys entries))) (GenSuspended (keys entries))
              (add_command grp) h).
    apply Hleaves. unfold keys. apply Forall_fmap, Forall_forall. by intros.
Qed.

(** ** Reading the built trees back *)

Lemma holds_app (h : Store) (base : nat) (l1 l2 : list Node) :
  holds h base (l1 ++ l2) <-> holds h base l1 /\ holds h (base + length l1) l2.
Proof.
  unfold holds. split.
  - intros H. split; intros i n Hi.
    + apply H. by apply lookup_app_l_Some.
    + rewrite <- Nat.add_assoc. apply H.
      rewrite lookup_app_r by lia. by rewrite Nat.add_comm, Nat.add_sub.
  - intros [H1 H2] i n Hi. apply lookup_app_Some in Hi as [Hi|[Hle Hi]].
    + by apply H1.
    + replace (base + i) with (base + length l1 + (i - length l1)) by lia.
      by apply H2.
Qed.

Lemma holds_middle (before nodes after : Store) :
  holds (before ++ nodes ++ after) (length before) nodes.
Proof.
  intros i n Hi. rewrite lookup_app_r by lia.
  rewrite Nat.add_comm, Nat.add_sub. by apply lookup_app_l_Some.
Qed.

Lemma holds_end (before nodes : Store) :
  holds (before ++ nodes) (length before) nodes.
Proof.
  pose proof (holds_middle before nodes []) as H. by rewrite app_nil_r in H.
Qed.


Lemma descriptor_size_pos (d : Descriptor) : 0 < descriptor_size d.
Proof. destruct d; simpl; lia. Qed.

Lemma roots_bounds (ds : list Descriptor) (base : nat) :
  Forall (fun l => base <= l < base + forest_size ds) (roots base ds).
Proof.
  revert base. induction ds as [|d ds IH]; intros base; simpl; constructor.
  - pose proof (descriptor_size_pos d). lia.
  - eapply Forall_impl; [apply IH|]. simpl. intros l Hl. lia.
Qed.

Lemma height_bound (ds : list Descriptor) :
  Forall (fun d => height d <= foldr (fun d m => max (height d) m) 0 ds) ds.
Proof.
  induction ds as [|d ds IH]; constructor; simpl; [lia|].
  eapply Forall_impl; [apply IH|]. simpl. intros x Hx. lia.
Qed.

Lemma read_forest (fuel : nat) (h : Store) (ds : list Descriptor) :
  Forall (fun d => forall base fuel, holds h base (layout base d) ->
            height d <= fuel -> read fuel h base = Some (tree_of d)) ds ->
  Forall (fun d => height d <= fuel) ds ->
  forall base, holds h base (layout_forest base ds) ->
    Forall2 (fun l t => read fuel h l = Some t) (roots base ds) (map tree_of ds).
Proof.
  intros IH Hfuel. induction ds as [|d ds IHds]; intros base Hh; simpl; constructor.
  - apply Forall_cons in IH as [IHd _]. apply Forall_cons in Hfuel as [Hd _].
    simpl in Hh. apply holds_app in Hh as [Hh _]. by apply IHd.
  - apply Forall_cons in IH as [_ IH]. apply Forall_cons in Hfuel as [_ Hfuel].
    simpl in Hh. apply holds_app in Hh as [_ Hh]. rewrite layout_length in Hh.
    by apply IHds.
Qed.

(** Wherever the store holds the layout of a descriptor, reading from
    its first location gives the tree of the descriptor. *)
Lemma read_layout (d : Descriptor) :
  forall (h : Store) (base fuel : nat),
    holds h base (layout base d) -> height d <= fuel ->
    read fuel h base = Some (tree_of d).
Proof.
  induction d as [f|c ds IH] using Descriptor_forall_ind; intros h base fuel Hh Hfuel.
  - destruct fuel as [|fuel]; [simpl in Hfuel; lia|].
    simpl. specialize (Hh 0 _ eq_refl). rewrite Nat.add_0_r in Hh.
    by rewrite Hh.
  - destruct fuel as [|fuel]; [simpl in Hfuel; lia|].
    rewrite layout_internal in Hh.
    pose proof (Hh 0 _ eq_refl) as H0. rewrite Nat.add_0_r in H0.
    simpl read. rewrite H0. simpl.
    assert (Hkids : mapM (read fuel h) (roots (S base) ds) = Some (map tree_of ds)).
    { apply mapM_Some. apply read_forest.
      - eapply Forall_impl; [apply IH|]. simpl. intros d Hd b fl. apply Hd.
      - simpl in Hfuel. eapply Forall_impl; [apply height_bound|].
        simpl. intros d Hd. lia.
      - apply (holds_app h base [_]) in Hh as [_ Hh]. simpl in Hh.
        by rewrite Nat.add_1_r in Hh. }
    by rewrite Hkids.
Qed.

Lemma read_roots (h : Store) (ds : list Descriptor) (base : nat) :
  holds h base (layout_forest base ds) ->
  Forall2 (fun l d => read (height d) h l = Some (tree_of d)) (roots base ds) ds.
Proof.
  revert base. induction ds as [|d ds IH]; intros base Hh; simpl; constructor.
  - simpl in Hh. apply holds_app in Hh as [Hh _]. by apply read_layout.
  - simpl in Hh. apply holds_app in Hh as [_ Hh]. rewrite layout_length in Hh.
    by apply IH.
Qed.






Lemma to_list_layout (items : list Value) (ds : list Descriptor) (h : Store) :
  Forall2 represents items ds ->
  to_list (construct_commands (VList items)) h =
  (Returned (roots (length h) ds), GenFinished, h ++ layout_forest (length h) ds).
Proof.
  intros Hrep. unfold to_list, construct_commands. simpl pending.
  change (pull (S (length items)) (GenCreated (VList items)) h)
    with (pull (S (length items)) (GenSuspended items) h).
  rewrite <- (Nat.add_0_r (length items)). by apply pull_exhausts.
Qed.

(** C4. [construct_commands] on a sequence of descriptors is a generator
    that builds on demand and in input order: [k] calls of [next] yield
    the roots of the first [k] descriptors and have created exactly the
    objects of their trees, each tree depth-first (a group, then each of
    its children with its own subtree, attached to the group in input
    order before the group is yielded). Run to its end it yields one node
    per descriptor, in order, and each reads back as the tree of its
    descriptor; after that it is finished and yields nothing more. *)
Theorem construct_commands_depth_first
    (items : list Value) (ds : list Descriptor) (h : Store) :
  Forall2 represents items ds ->
  let gen := construct_commands (VList items) in
  (forall k, k <= length ds ->
     exists gen' : Generator,
       pull k gen h =
       (Returned (roots (length h) (take k ds)), gen',
        h ++ layout_forest (length h) (take k ds)) /\
       pending gen' = length ds - k) /\
  to_list gen h =
  (Returned (roots (length h) ds), GenFinished, h ++ layout_forest (length h) ds) /\
  Forall2 (fun l d => read (height d) (h ++ layout_forest (length h) ds) l
                      = Some (tree_of d))
    (roots (length h) ds) ds /\
  forall h', to_list GenFinished h' = (Returned [], GenFinished, h').
Proof.
  intros Hrep gen. pose proof (Forall2_length _ _ _ Hrep) as Hlen.
  split; [|split; [|split]].
  - intros [|k] Hk.
    + exists gen. simpl. rewrite app_nil_r. split; [reflexivity|]. lia.
    + exists (GenSuspended (drop (S k) items)).
      change (pull (S k) gen h) with (pull (S k) (GenSuspended items) h).
      split; [by apply pull_suspended|].
      simpl. rewrite length_drop. lia.
  - by apply to_list_layout.
  - apply read_roots, holds_end.
  - reflexivity.
Qed.





(** ** The loop body on an arbitrary value *)

Lemma Value_forall_ind (P : Value -> Prop) :
  P VNone -> (forall b, P (VBool b)) -> (forall n, P (VInt n)) ->
  (forall s, P (VStr s)) ->
  (forall items, Forall P items -> P (VList items)) ->
  (forall entries, Forall (fun e => P e.2) entries -> P (VDict entries)) ->
  (forall fn, P (VFunction fn)) ->
  (forall fn self, P self -> P (VMethod fn self)) ->
  (forall getter, P getter -> P (VProperty getter)) ->
  (forall oid, P (VObject oid)) ->
  forall v, P v.
Proof.
  intros HNone HBool HInt HStr HList HDict HFun HMeth HProp HObj. fix IH 1.
  intros [|b|n|s|items|entries|fn|fn self|getter|oid].
  - exact HNone.
  - apply HBool.
  - apply HInt.
  - apply HStr.
  - apply HList. induction items as [|x items IHitems].
    + apply Forall_nil_2.
    + apply Forall_cons_2; [apply IH|apply IHitems].
  - apply HDict. induction entries as [|[k x] entries IHentries].
    + apply Forall_nil_2.
    + apply Forall_cons_2; [apply IH|apply IHentries].
  - apply HFun.
  - apply HMeth, IH.
  - apply HProp, IH.
  - apply HObj.
Qed.

Lemma dict_get_Forall (R : Value -> Prop) (key : string) (entries : list (string * Value))
    (v : Value) :
  Forall (fun e => R e.2) entries -> dict_get key entries = Some v -> R v.
Proof.
  induction 1 as [|[k x] entries Hx _ IH]; simpl; [discriminate|].
  destruct (String.eqb k key); [|exact IH]. intros [= <-]. exact Hx.
Qed.

(** A loop body only adds objects behind the ones that are there. *)
Definition extends (build : Value -> B nat) (cmd : Value) : Prop :=
  forall h : Store, exists (outcome : Outcome nat) (built : list Node),
    build cmd h = (outcome, h ++ built).

Lemma create_client_command_extends (cmd : Value) : extends __create_client_command cmd.
Proof. intros h. do 2 eexists. apply create_client_command_builds. Qed.

Lemma attach_all_extends (build : Value -> B nat) (c : Value) (items : list Value) :
  Forall (extends build) items ->
  forall (h : Store) (attached : list nat) (built : list Node),
  exists (outcome : Outcome unit) (attached' : list nat) (built' : list Node),
    attach_all build (length h) items (h ++ expected_node GroupNode c attached :: built) =
    (outcome, h ++ expected_node GroupNode c attached' :: built').
Proof.
  induction 1 as [|x items Hx _ IH]; intros h attached built.
  - by exists (Returned tt), attached, built.
  - rewrite attach_all_cons. unfold bind at 1 2.
    destruct (Hx (h ++ expected_node GroupNode c attached :: built)) as (o & ext & ->).
    destruct o as [child|e].
    + rewrite <- app_assoc. simpl. rewrite alter_attach_group. apply IH.
    + exists (Raised e), attached, (built ++ ext). by rewrite <- app_assoc.
Qed.

(** On a dict with a [context] entry the loop body first creates a group
    from that entry; whatever happens next, the group stays where it was
    created, with the children attached so far, and when the round ends
    well it is the group that is yielded. *)
Lemma construct_command_group (entries : list (string * Value)) (context : Value) :
  dict_get "context" entries = Some context ->
  (forall items, dict_get "commands" entries = Some (VList items) ->
                 Forall (extends construct_command) items) ->
  forall h : Store,
  exists (outcome : Outcome nat) (attached : list nat) (built : list Node),
    construct_command (VDict entries) h =
    (outcome, h ++ expected_node GroupNode context attached :: built) /\
    (outcome = Returned (length h) \/ exists e, outcome = Raised e).
Proof.
  intros Hctx Hitems h. rewrite (construct_command_internal entries context Hctx).
  rewrite (bind_returned _ _ h (h ++ [expected_node GroupNode context []]) (length h))
    by apply create_client_group_builds.
  destruct (dict_get "commands" entries) as [commands|] eqn:Hcmds.
  - rewrite (getitem_found entries "commands" _ commands Hcmds).
    assert (Hloop : forall (build : Value -> B nat) (items : list Value),
              Forall (extends build) items ->
              exists (outcome : Outcome nat) (attached : list nat) (built : list Node),
                bind (attach_all build (length h) items) (fun _ => ret (length h))
                  (h ++ [expected_node GroupNode context []]) =
                (outcome, h ++ expected_node GroupNode context attached :: built) /\
                (outcome = Returned (length h) \/ exists e, outcome = Raised e)).
    { intros build items Hext. unfold bind.
      destruct (attach_all_extends build context items Hext h [] [])
        as ([[]|e] & attached & built & ->).
      - exists (Returned (length h)), attached, built. split; [reflexivity|by left].
      - exists (Raised e), attached, built. split; [reflexivity|]. right. by exists e. }
    destruct commands;
      try (exists (Raised TypeError), [], []; split; [reflexivity|right; by eexists]).
    + apply Hloop, Forall_forall. intros x _. apply create_client_command_extends.
    + by apply Hloop, Hitems.
    + apply Hloop, Forall_forall. intros x _. apply create_client_command_extends.
  - rewrite (getitem_missing entries "commands" _ Hcmds).
    exists (Raised (KeyError "commands")), [], []. split; [reflexivity|].
    right. by eexists.
Qed.

Lemma construct_command_extends (cmd : Value) :
  extends construct_command cmd /\
  (forall items, cmd = VList items -> Forall (extends construct_command) items).
Proof.
  induction cmd as [| | | |items IH|entries IH| | | |] using Value_forall_ind;
    try (split; [|discriminate]; intros h;
         rewrite construct_command_leaf by reflexivity;
         apply create_client_command_extends).
  - split.
    + intros h. rewrite construct_command_leaf by reflexivity.
      apply create_client_command_extends.
    + intros items' [= <-]. eapply Forall_impl; [apply IH|]. simpl. by intros x [Hx _].
  - split; [|discriminate]. intros h.
    destruct (dict_get "context" entries) as [context|] eqn:Hctx.
    + destruct (construct_command_group entries context Hctx) with (h := h)
        as (o & attached & built & -> & _).
      * intros items Hcmds.
        by apply (dict_get_Forall
                    (fun v => extends construct_command v /\
                       forall items, v = VList items ->
                                     Forall (extends construct_command) items)
                    "commands" entries (VList items) IH Hcmds).
      * by exists o, (expected_node GroupNode context attached :: built).
    + rewrite construct_command_leaf by (simpl; by rewrite Hctx).
      apply create_client_command_extends.
Qed.

(** C9. The loop body builds a group exactly for the dicts that have a
    [context] entry. Any other value, a dict without that entry
    included, goes to the leaf adapter, which builds a command from it
    and never fails. For a dict with the entry, the object created is a
    group made from the entry, and nothing else is ever yielded for it. *)
Theorem group_iff_context_dict (cmd : Value) (h : Store) :
  (isinstance_dict cmd && contains "context" cmd = false ->
   construct_command cmd h = __create_client_command cmd h /\
   construct_command cmd h =
   (Returned (length h), h ++ [expected_node CommandNode cmd []])) /\
  (isinstance_dict cmd && contains "context" cmd = true ->
   exists entries context outcome attached built,
     cmd = VDict entries /\ dict_get "context" entries = Some context /\
     construct_command cmd h =
     (outcome, h ++ expected_node GroupNode context attached :: built) /\
     (outcome = Returned (length h) \/ exists e, outcome = Raised e)).
Proof.
  split.
  - intros Hleaf. rewrite (construct_command_leaf cmd Hleaf).
    split; [reflexivity|apply create_client_command_builds].
  - intros Hgroup. destruct cmd as [| | | | |entries| | | |]; try discriminate.
    simpl in Hgroup. destruct (dict_get "context" entries) as [context|] eqn:Hctx;
      [|discriminate].
    destruct (construct_command_group entries context Hctx) with (h := h)
      as (o & attached & built & Heq & Ho).
    + intros items Hcmds.
      pose proof (dict_get_Forall (fun v => forall items, v = VList items ->
                    Forall (extends construct_command) items)
                    "commands" entries (VList items)) as Hall.
      apply Hall; [|exact Hcmds|reflexivity].
      apply Forall_forall. intros e _. apply construct_command_extends.
    + by exists entries, context, o, attached, built.
Qed.

(** ** Discovery *)

Lemma string_compare_trans (s1 : string) :
  forall s2 s3 : string,
    String.compare s1 s2 <> Gt -> String.compare s2 s3 <> Gt ->
    String.compare s1 s3 <> Gt.
Proof.
  induction s1 as [|a1 s1 IH]; intros [|a2 s2] [|a3 s3]; simpl; try congruence.
  unfold Ascii.compare.
  destruct (N.compare_spec (N_of_ascii a1) (N_of_ascii a2)) as [E12|L12|G12];
    destruct (N.compare_spec (N_of_ascii a2) (N_of_ascii a3)) as [E23|L23|G23];
    destruct (N.compare_spec (N_of_ascii a1) (N_of_ascii a3)) as [E13|L13|G13];
    try (intros; congruence); try (exfalso; lia).
  apply IH.
Qed.

#[global] Instance string_le_total : Total string_le.
Proof. intros a b. apply String.leb_total. Qed.

#[global] Instance string_le_trans : Transitive string_le.
Proof.
  intros a b c. unfold string_le, String.leb. intros Hab Hbc.
  pose proof (string_compare_trans a b c) as H.
  destruct (String.compare a b), (String.compare b c), (String.compare a c);
    try reflexivity; try discriminate; exfalso; apply H; congruence.
Qed.

Lemma StronglySorted_filter {A} (R : relation A) (P : A -> Prop)
    `{forall x, Decision (P x)} (l : list A) :
  StronglySorted R l -> StronglySorted R (filter P l).
Proof.
  induction 1 as [|x l _ IH Hx]; [constructor|].
  rewrite filter_cons. destruct (decide (P x)); [|exact IH].
  constructor; [exact IH|].
  apply Forall_forall. intros y Hy. apply list_elem_of_filter in Hy as [_ Hy].
  rewrite Forall_forall in Hx. by apply Hx.
Qed.

(** The loop of [find_client_commands]: it appends, in the order of the
    names, the value of each selected name. *)
Lemma find_client_commands_loop_filter (obj : Object) (names : list string) :
  (forall name, name ∈ names -> startswith name "_" = false ->
                exists attr, obj_getattr obj name = Returned attr) ->
  forall commands : list Value,
  exists found : list Value,
    find_client_commands_loop obj names commands = Returned (commands ++ found) /\
    Forall2 (fun name attr => obj_getattr obj name = Returned attr)
      (filter (fun name => is_client_command obj name = true) names) found.
Proof.
  induction names as [|name names IH]; intros Hres commands.
  - exists []. rewrite app_nil_r. split; [reflexivity|constructor].
  - assert (Hrest : forall n, n ∈ names -> startswith n "_" = false ->
              exists attr, obj_getattr obj n = Returned attr).
    { intros n Hn. apply Hres. by right. }
    simpl find_client_commands_loop.
    destruct (startswith name "_") eqn:Hpub; simpl negb; cbv iota.
    + rewrite filter_cons_False; [by apply IH|].
      unfold is_client_command. by rewrite Hpub.
    + destruct (Hres name) as [attr Hattr]; [by left|done|]. rewrite Hattr.
      destruct (isgeneratorfunction attr || isfunction attr || ismethod attr) eqn:Hsel.
      * rewrite filter_cons_True.
        { destruct (IH Hrest (commands ++ [attr])) as (found & Hrun & Hall).
          exists (attr :: found). rewrite Hrun, <- app_assoc.
          split; [reflexivity|by constructor]. }
        unfold is_client_command. rewrite Hpub, Hattr. simpl.
        by destruct (isgeneratorfunction attr), (isfunction attr), (ismethod attr).
      * rewrite filter_cons_False; [by apply IH|].
        unfold is_client_command. rewrite Hpub, Hattr. simpl.
        by destruct (isgeneratorfunction attr), (isfunction attr), (ismethod attr).
Qed.

(** C3. On an object whose public names all resolve,
    [find_client_commands] returns the values of exactly the names that
    the object lists, that do not begin with an underscore and that
    resolve to a function, a bound method or a generator function; the
    values come in the order of the names, which is the sorted order
    [dir] lists them in. *)
Theorem find_client_commands_exact (obj : Object) :
  (forall name, name ∈ obj_dir obj -> startswith name "_" = false ->
                exists attr, obj_getattr obj name = Returned attr) ->
  exists (names : list string) (commands : list Value),
    find_client_commands obj = Returned commands /\
    Forall2 (fun name attr => obj_getattr obj name = Returned attr) names commands /\
    (forall name, name ∈ names <->
                  name ∈ obj_dir obj /\ is_client_command obj name = true) /\
    (forall attr, attr ∈ commands <->
       exists name, name ∈ obj_dir obj /\ startswith name "_" = false /\
                    obj_getattr obj name = Returned attr /\
                    (isfunction attr = true \/ ismethod attr = true \/
                     isgeneratorfunction attr = true)) /\
    names `sublist_of` dir obj /\
    StronglySorted string_le names.
Proof.
  intros Hres.
  assert (Hdir : forall name, name ∈ dir obj <-> name ∈ obj_dir obj).
  { intros name. unfold dir. by rewrite merge_sort_Permutation. }
  destruct (find_client_commands_loop_filter obj (dir obj)) with (commands := @nil Value)
    as (commands & Hrun & Hall).
  { intros name Hname. apply Hres. by apply Hdir. }
  set (names := filter (fun name => is_client_command obj name = true) (dir obj)) in *.
  assert (Hnames : forall name, name ∈ names <->
            name ∈ obj_dir obj /\ is_client_command obj name = true).
  { intros name. unfold names. rewrite list_elem_of_filter, Hdir. tauto. }
  exists names, commands. split; [exact Hrun|]. split; [exact Hall|].
  split; [exact Hnames|]. split; [|split].
  - intros attr. split.
    + intros Hattr. apply list_elem_of_lookup in Hattr as [i Hi].
      destruct (Forall2_lookup_r _ _ _ _ _ Hall Hi) as (name & Hname & Hget).
      exists name. apply list_elem_of_lookup_2, Hnames in Hname as [Hin Hsel].
      unfold is_client_command in Hsel. rewrite Hget in Hsel.
      apply andb_true_iff in Hsel as [Hpub Hkind].
      apply negb_true_iff in Hpub.
      repeat split; try assumption.
      destruct (isfunction attr), (ismethod attr), (isgeneratorfunction attr);
        auto; discriminate.
    + intros (name & Hin & Hpub & Hget & Hkind).
      assert (Hname : name ∈ names).
      { apply Hnames. split; [exact Hin|]. unfold is_client_command.
        rewrite Hpub, Hget. simpl.
        destruct Hkind as [ -> | [ -> | -> ] ]; simpl; rewrite ?orb_true_r; reflexivity. }
      apply list_elem_of_lookup in Hname as [i Hi].
      destruct (Forall2_lookup_l _ _ _ _ _ Hall Hi) as (attr' & Hattr' & Hget').
      assert (attr' = attr) as -> by congruence.
      by eapply list_elem_of_lookup_2.
  - apply sublist_filter.
  - apply StronglySorted_filter. unfold dir. apply StronglySorted_merge_sort; apply _.
Qed.

(** ** Metadata *)

(** C6. A node built by either adapter from a function, or from a
    property whose getter is that function, shows the parameters declared
    on the function, the same ones in the same order as click derives
    from the function itself, under the function's name and docstring;
    the wrapper was given the function's own [__click_params__]. *)
Theorem adapters_preserve_metadata (f : Value) (fn : Function) (h : Store) :
  underlying f = VFunction fn ->
  exists grp cmd : Node,
    __create_client_group f h = (Returned (length h), h ++ [grp]) /\
    __create_client_command f h = (Returned (length h), h ++ [cmd]) /\
    (forall code, cb_click_params (update_wrapper (def_new_func code) (underlying f))
                  = fn_click_params fn) /\
    node_params grp = declared_params (fn_click_params fn) /\
    node_params cmd = declared_params (fn_click_params fn) /\
    (forall ps, fn_click_params fn = Some ps ->
       node_params grp = reverse ps /\ node_params cmd = reverse ps /\
       forall p, p ∈ node_params cmd <-> p ∈ ps) /\
    node_name grp = fn_name fn /\ node_name cmd = fn_name fn /\
    node_help grp = fn_doc fn /\ node_help cmd = fn_doc fn.
Proof.
  intros Hf. do 2 eexists.
  split; [apply create_client_group_builds|].
  split; [apply create_client_command_builds|].
  unfold expected_node. simpl. rewrite Hf. simpl.
  repeat split; try reflexivity.
  - intros code. by destruct (fn_click_params fn).
  - by rewrite H.
  - by rewrite H.
  - rewrite H. simpl. apply elem_of_reverse.
  - rewrite H. simpl. apply elem_of_reverse.
Qed.

(** ** The example of the specification, and the theorems at work *)

(** Section 8: with the tree [{context: accounts, commands: [list]}],
    running [accounts list] from the client calls the [accounts] getter
    on the client, then [list] on what it returned, and prints the
    account list as JSON. *)
Example accounts_list_scenario :
  let '(_, _, h) :=
    to_list (construct_commands
               (VList [VDict [("context", accounts_property);
                              ("commands", VList [VFunction list_fn])]])) [] in
  exists grp cmd : Node,
    h !! 0 = Some grp /\ h !! 1 = Some cmd /\ node_commands grp = [1] /\
    main client
      (group_invoke demo_behaviour demo_dumps grp [] []
         (invoke demo_behaviour demo_dumps cmd [] [])) =
    (Returned (VList [VDict [("id", VInt 1)]]),
     {| w_calls :=
          [{| call_fn := accounts_getter; call_args := [client]; call_kwargs := [] |};
           {| call_fn := list_fn; call_args := [accounts_client]; call_kwargs := [] |}];
        w_stdout := ["[{" +:+ json_string "id" +:+ ": 1}]"];
        w_stack := [{| ctx_obj := accounts_client |}] |}).
Proof. simpl. do 2 eexists. repeat split. Qed.

Lemma leaf_command_calls_once_and_echoes_witness :
  exists cmd : Node,
    __create_client_command (VFunction list_fn) [] = (Returned 0, [cmd]) /\
    invoke demo_behaviour demo_dumps cmd [VInt 10] [("filter", VStr "a")]
      (initial_world accounts_client) =
    (Returned (VList [VDict [("id", VInt 1)]]),
     {| w_calls :=
          [{| call_fn := list_fn; call_args := [accounts_client; VInt 10];
              call_kwargs := [("filter", VStr "a")] |}];
        w_stdout := ["[{" +:+ json_string "id" +:+ ": 1}]"];
        w_stack := [{| ctx_obj := accounts_client |}] |}).
Proof.
  destruct (leaf_command_calls_once_and_echoes demo_behaviour demo_dumps list_fn
              accounts_client [VInt 10] [("filter", VStr "a")] []
              (initial_world accounts_client) [] eq_refl)
    as (cmd & Hbuilt & _ & Hvalue).
  exists cmd. split; [exact Hbuilt|].
  apply (Hvalue _ _ eq_refl); [discriminate|reflexivity].
Defined.

Lemma leaf_command_propagates_exceptions_witness :
  exists cmd : Node,
    __create_client_command (VFunction broken_fn) [] = (Returned 0, [cmd]) /\
    invoke demo_behaviour demo_dumps cmd [] [] (initial_world accounts_client) =
    (Raised (ClientError 5),
     {| w_calls :=
          [{| call_fn := broken_fn; call_args := [accounts_client]; call_kwargs := [] |}];
        w_stdout := [];
        w_stack := [{| ctx_obj := accounts_client |}] |}).
Proof.
  destruct (leaf_command_propagates_exceptions demo_behaviour demo_dumps broken_fn
              accounts_client [] [] [] (initial_world accounts_client) [] eq_refl)
    as (cmd & Hbuilt & Hraise & _).
  exists cmd. split; [exact Hbuilt|]. apply Hraise. reflexivity.
Defined.

Lemma group_wrapper_returns_none_witness :
  exists grp : Node,
    __create_client_group (VFunction accounts_getter) [] = (Returned 0, [grp]) /\
    invoke demo_behaviour demo_dumps grp [] [] (initial_world client) =
    (Returned VNone,
     {| w_calls :=
          [{| call_fn := accounts_getter; call_args := [client]; call_kwargs := [] |}];
        w_stdout := [];
        w_stack := [{| ctx_obj := accounts_client |}] |}).
Proof.
  destruct (group_wrapper_returns_none demo_behaviour demo_dumps accounts_getter
              client [] [] [] (initial_world client) [] accounts_client
              eq_refl eq_refl)
    as (grp & cmd & Hgrp & _ & _ & Hrun & _).
  exists grp. split; [exact Hgrp|exact Hrun].
Defined.

Lemma group_publishes_context_to_children_witness :
  exists grp child : Node,
    __create_client_group (VFunction accounts_getter) [] = (Returned 0, [grp]) /\
    __create_client_command (VFunction list_fn) [grp] = (Returned 1, [grp; child]) /\
    w_calls (group_invoke demo_behaviour demo_dumps grp [] []
               (invoke demo_behaviour demo_dumps child [] []) (initial_world client)).2 =
    [{| call_fn := accounts_getter; call_args := [client]; call_kwargs := [] |};
     {| call_fn := list_fn; call_args := [accounts_client]; call_kwargs := [] |}].
Proof.
  destruct (group_publishes_context_to_children demo_behaviour demo_dumps
              accounts_getter client [] [] [] (initial_world client) [] accounts_client
              eq_refl eq_refl)
    as (grp & Hgrp & _ & Hchild).
  destruct (Hchild list_fn [] [] [grp]) as (child & Hbuilt & Hcalls & _).
  exists grp, child. split; [exact Hgrp|]. split; [exact Hbuilt|exact Hcalls].
Defined.

Lemma find_client_commands_exact_witness :
  exists (names : list string) (commands : list Value),
    find_client_commands accounts_object = Returned commands /\
    Forall2 (fun name attr => obj_getattr accounts_object name = Returned attr)
      names commands /\
    StronglySorted string_le names.
Proof.
  destruct (find_client_commands_exact accounts_object)
    as (names & commands & Hrun & Hall & _ & _ & _ & Hsorted).
  - intros name Hin _. simpl in Hin.
    repeat (apply elem_of_cons in Hin as [->|Hin]; [eexists; reflexivity|]).
    by apply elem_of_nil in Hin.
  - by exists names, commands.
Defined.

Lemma construct_commands_depth_first_witness :
  to_list (construct_commands (VList demo_commands)) [] =
  (Returned [0; 3], GenFinished, layout_forest 0 demo_descriptors).
Proof.
  assert (Hrep : Forall2 represents demo_commands demo_descriptors).
  { repeat econstructor. }
  destruct (construct_commands_depth_first demo_commands demo_descriptors [] Hrep)
    as (_ & Hall & _).
  exact Hall.
Defined.


Lemma adapters_preserve_metadata_witness :
  exists grp cmd : Node,
    __create_client_group (VProperty (VFunction list_fn)) [] = (Returned 0, [grp]) /\
    __create_client_command (VProperty (VFunction list_fn)) [] = (Returned 0, [cmd]) /\
    node_params grp = [limit_option; filter_argument] /\
    node_params cmd = [limit_option; filter_argument].
Proof.
  destruct (adapters_preserve_metadata (VProperty (VFunction list_fn)) list_fn []
              eq_refl)
    as (grp & cmd & Hgrp & Hcmd & _ & _ & _ & Hps & _).
  destruct (Hps _ eq_refl) as (Hg & Hc & _).
  by exists grp, cmd.
Defined.

Lemma group_iff_context_dict_witness :
  construct_command (VDict [("commands", VList [])]) [] =
  (Returned 0, [expected_node CommandNode (VDict [("commands", VList [])]) []]) /\
  exists entries context outcome attached built,
    VDict [("context", accounts_property)] = VDict entries /\
    dict_get "context" entries = Some context /\
    construct_command (VDict [("context", accounts_property)]) [] =
    (outcome, expected_node GroupNode context attached :: built).
Proof.
  split.
  - destruct (group_iff_context_dict (VDict [("commands", VList [])]) [])
      as [Hleaf _].
    destruct (Hleaf eq_refl) as [_ H]. exact H.
  - destruct (group_iff_context_dict (VDict [("context", accounts_property)]) [])
      as [_ Hgroup].
    destruct (Hgroup eq_refl)
      as (entries & context & outcome & attached & built & H1 & H2 & H3 & _).
    by exists entries, context, outcome, attached, built.
Defined.

(** ** More on the wrappers *)

Section Wrappers.

Variable behaviour :
  list CallRecord -> Function -> list Value -> list (string * Value) -> Outcome Value.
Variable dumps : Value -> Outcome string.

Lemma get_current_context_pure (w : World) : (get_current_context w).2 = w.
Proof. unfold get_current_context. by destruct (w_stack w). Qed.

Lemma ctx_obj_get_pure (ctx : nat) (w : World) : (ctx_obj_get ctx w).2 = w.
Proof. unfold ctx_obj_get. by destruct (w_stack w !! ctx). Qed.

Lemma call_footprint (f : Value) (args : list Value) (kwargs : list (string * Value))
    (w : World) :
  let r := call behaviour f args kwargs w in
  w_stdout r.2 = w_stdout w /\ w_stack r.2 = w_stack w /\
  exists calls, w_calls r.2 = w_calls w ++ calls /\ length calls <= 1 /\
    forall x, r.1 = Returned x -> length calls = 1.
Proof.
  assert (Hno : w_stdout w = w_stdout w /\ w_stack w = w_stack w /\
            exists calls, w_calls w = w_calls w ++ calls /\ length calls <= 1 /\
              forall x : Value, @Raised Value TypeError = Returned x -> length calls = 1).
  { repeat split. exists []. rewrite app_nil_r. repeat split; [simpl; lia|discriminate]. }
  destruct f; try exact Hno; simpl; repeat split; eexists;
    (split; [reflexivity|split; [simpl; lia|reflexivity]]).
Qed.

Lemma group_new_func_footprint
    (actual_f : Value) (args : list Value) (kwargs : list (string * Value)) (w : World) :
  let g := group_new_func behaviour actual_f args kwargs w in
  w_stdout g.2 = w_stdout w /\
  length (w_stack g.2) = length (w_stack w) /\
  exists calls, w_calls g.2 = w_calls w ++ calls /\ length calls <= 1 /\
    forall x, g.1 = Returned x -> length calls = 1.
Proof.
  assert (Hno : w_stdout w = w_stdout w /\ length (w_stack w) = length (w_stack w) /\
            exists calls, w_calls w = w_calls w ++ calls /\ length calls <= 1 /\
              forall (x : Value) (e : Exn), @Raised Value e = Returned x ->
                                            length calls = 1).
  { repeat split. exists []. rewrite app_nil_r. repeat split; [simpl; lia|discriminate]. }
  destruct Hno as (Ho & Hk & calls0 & Hc0 & Hl0 & Hr0).
  simpl. unfold group_new_func, pass_obj, pass_context, bind.
  pose proof (get_current_context_pure w) as H1.
  destruct (get_current_context w) as [[c|e] w1]; simpl in H1; subst w1; simpl.
  2:{ split; [exact Ho|]. split; [exact Hk|]. exists calls0. eauto. }
  pose proof (ctx_obj_get_pure c w) as H2.
  destruct (ctx_obj_get c w) as [[obj|e] w2]; simpl in H2; subst w2; simpl.
  2:{ split; [exact Ho|]. split; [exact Hk|]. exists calls0. eauto. }
  pose proof (get_current_context_pure w) as H3.
  destruct (get_current_context w) as [[ctx|e] w3]; simpl in H3; subst w3; simpl.
  2:{ split; [exact Ho|]. split; [exact Hk|]. exists calls0. eauto. }
  pose proof (call_footprint actual_f (obj :: args) kwargs w) as Hcall.
  simpl in Hcall. destruct Hcall as (Hout & Hst & calls & Hcalls & Hlen & Hret).
  destruct (call behaviour actual_f (obj :: args) kwargs w) as [[v|e] w4]; simpl in *.
  - rewrite length_insert, Hst. split; [exact Hout|]. split; [reflexivity|].
    exists calls. split; [exact Hcalls|]. split; [exact Hlen|].
    intros x _. by apply (Hret v).
  - rewrite Hst. split; [exact Hout|]. split; [reflexivity|].
    exists calls. split; [exact Hcalls|]. split; [exact Hlen|]. discriminate.
Qed.

Lemma command_new_func_footprint
    (actual_f : Value) (args : list Value) (kwargs : list (string * Value)) (w : World) :
  let c := command_new_func behaviour dumps actual_f args kwargs w in
  w_stack c.2 = w_stack w /\
  (exists lines, w_stdout c.2 = w_stdout w ++ lines /\ length lines <= 1) /\
  exists calls, w_calls c.2 = w_calls w ++ calls /\ length calls <= 1 /\
    forall x, c.1 = Returned x -> length calls = 1.
Proof.
  assert (Hno : w_stack w = w_stack w /\
            (exists lines, w_stdout w = w_stdout w ++ lines /\ length lines <= 1) /\
            exists calls, w_calls w = w_calls w ++ calls /\ length calls <= 1 /\
              forall (x : Value) (e : Exn), @Raised Value e = Returned x ->
                                            length calls = 1).
  { split; [reflexivity|]. split; exists []; rewrite app_nil_r;
      repeat split; simpl; try lia; discriminate. }
  destruct Hno as (Hk & Hlines0 & calls0 & Hc0 & Hl0 & Hr0).
  simpl. unfold command_new_func, pass_obj, bind.
  pose proof (get_current_context_pure w) as H1.
  destruct (get_current_context w) as [[c|e] w1]; simpl in H1; subst w1; simpl.
  2:{ split; [exact Hk|]. split; [exact Hlines0|]. exists calls0. eauto. }
  pose proof (ctx_obj_get_pure c w) as H2.
  destruct (ctx_obj_get c w) as [[obj|e] w2]; simpl in H2; subst w2; simpl.
  2:{ split; [exact Hk|]. split; [exact Hlines0|]. exists calls0. eauto. }
  pose proof (call_footprint actual_f (obj :: args) kwargs w) as Hcall.
  simpl in Hcall. destruct Hcall as (Hout & Hst & calls & Hcalls & Hlen & Hret).
  destruct (call behaviour actual_f (obj :: args) kwargs w) as [[v|e] w4]; simpl in *.
  2:{ split; [exact Hst|]. split.
      - exists []. rewrite app_nil_r. split; [exact Hout|simpl; lia].
      - exists calls. split; [exact Hcalls|]. split; [exact Hlen|]. discriminate. }
  destruct (is_not_None v); simpl.
  - unfold bind, lift, echo. destruct (dumps v) as [line|e]; simpl.
    + split; [exact Hst|]. split.
      * exists [line]. rewrite Hout. split; [reflexivity|simpl; lia].
      * exists calls. split; [exact Hcalls|]. split; [exact Hlen|].
        intros x _. by apply (Hret v).
    + split; [exact Hst|]. split.
      * exists []. rewrite app_nil_r. split; [exact Hout|simpl; lia].
      * exists calls. split; [exact Hcalls|]. split; [exact Hlen|]. discriminate.
  - split; [exact Hst|]. split.
    + exists []. rewrite app_nil_r. split; [exact Hout|simpl; lia].
    + exists calls. split; [exact Hcalls|]. split; [exact Hlen|].
      intros x _. by apply (Hret v).
Qed.

(** X1. What a callback touches, whatever it wraps and wherever it runs:
    the group callback writes nothing and keeps the depth of the context
    stack; the leaf callback leaves the contexts alone and writes at most
    one line; each makes at most one call, and exactly one when it
    returns. *)
Theorem callbacks_footprint
    (actual_f : Value) (args : list Value) (kwargs : list (string * Value)) (w : World) :
  let g := group_new_func behaviour actual_f args kwargs w in
  let c := command_new_func behaviour dumps actual_f args kwargs w in
  w_stdout g.2 = w_stdout w /\
  length (w_stack g.2) = length (w_stack w) /\
  w_stack c.2 = w_stack w /\
  (exists lines, w_stdout c.2 = w_stdout w ++ lines /\ length lines <= 1) /\
  (exists calls, w_calls g.2 = w_calls w ++ calls /\ length calls <= 1 /\
     forall x, g.1 = Returned x -> length calls = 1) /\
  (exists calls, w_calls c.2 = w_calls w ++ calls /\ length calls <= 1 /\
     forall x, c.1 = Returned x -> length calls = 1).
Proof.
  destruct (group_new_func_footprint actual_f args kwargs w) as (G1 & G2 & G3).
  destruct (command_new_func_footprint actual_f args kwargs w) as (C1 & C2 & C3).
  simpl. repeat split; assumption.
Qed.

(** X2. The adapters do not check what they wrap. From a value Python
    cannot call ([None], a bool, an int, a string, a list, a dict, a
    property object), or from a property whose getter is such a value
    (a property without getter, for one), both still build a node, and
    the failure only shows when the node runs: [TypeError], with no call
    made, nothing written and the context as it was. *)
Theorem uncallable_input_fails_at_invocation
    (f r : Value) (args : list Value) (kwargs : list (string * Value))
    (h : Store) (w : World) (stack : list Context) :
  not_callable (underlying f) = true ->
  w_stack w = stack ++ [{| ctx_obj := r |}] ->
  exists grp cmd : Node,
    __create_client_group f h = (Returned (length h), h ++ [grp]) /\
    __create_client_command f h = (Returned (length h), h ++ [cmd]) /\
    invoke behaviour dumps grp args kwargs w = (Raised TypeError, w) /\
    invoke behaviour dumps cmd args kwargs w = (Raised TypeError, w).
Proof.
  intros Hf Hs. do 2 eexists.
  split; [apply create_client_group_builds|].
  split; [apply create_client_command_builds|].
  unfold invoke, run_callback. simpl. split.
  - unfold group_new_func.
    rewrite (pass_obj_top _ args kwargs w stack _ Hs).
    rewrite (pass_context_top _ args kwargs w stack _ Hs).
    unfold bind. by destruct (underlying f).
  - unfold command_new_func.
    rewrite (pass_obj_top _ args kwargs w stack _ Hs).
    unfold bind. by destruct (underlying f).
Qed.

(** X3. A bound method is called on its own [self] first: the command or
    group built from one passes the receiver of the context as the
    argument after [self], so the function gets
    [self, r, args...]. *)
Theorem bound_method_receives_self_then_receiver
    (fn : Function) (self r : Value) (args : list Value) (kwargs : list (string * Value))
    (h : Store) (w : World) (stack : list Context) :
  w_stack w = stack ++ [{| ctx_obj := r |}] ->
  exists grp cmd : Node,
    __create_client_group (VMethod fn self) h = (Returned (length h), h ++ [grp]) /\
    __create_client_command (VMethod fn self) h = (Returned (length h), h ++ [cmd]) /\
    let the_call :=
      {| call_fn := fn; call_args := self :: r :: args; call_kwargs := kwargs |} in
    let result := behaviour (w_calls w) fn (self :: r :: args) kwargs in
    w_calls (invoke behaviour dumps grp args kwargs w).2 = w_calls w ++ [the_call] /\
    w_calls (invoke behaviour dumps cmd args kwargs w).2 = w_calls w ++ [the_call] /\
    (forall v, result = Returned v ->
       w_stack (invoke behaviour dumps grp args kwargs w).2
       = stack ++ [{| ctx_obj := v |}]) /\
    (forall v, result = Returned v -> v = VNone \/ (exists s, dumps v = Returned s) ->
       (invoke behaviour dumps cmd args kwargs w).1 = Returned v) /\
    (forall e, result = Raised e ->
       (invoke behaviour dumps grp args kwargs w).1 = Raised e /\
       (invoke behaviour dumps cmd args kwargs w).1 = Raised e).
Proof.
  intros Hs. do 2 eexists.
  split; [apply create_client_group_builds|].
  split; [apply create_client_command_builds|].
  unfold invoke, run_callback. simpl.
  unfold group_new_func, command_new_func.
  rewrite !(pass_obj_top _ args kwargs w stack _ Hs).
  rewrite (pass_context_top _ args kwargs w stack _ Hs).
  unfold bind, call, invoke_function. simpl.
  destruct (behaviour (w_calls w) fn (self :: r :: args) kwargs) as [v|e]; simpl.
  - split; [reflexivity|]. split.
    { destruct (is_not_None v); [|reflexivity].
      unfold bind, lift, echo. by destruct (dumps v). }
    split.
    { intros v' [= <-]. rewrite Hs.
      rewrite (insert_app_r_alt stack _ (length stack)) by lia.
      by rewrite Nat.sub_diag. }
    split; [|discriminate].
    intros v' [= <-] [->|[s Hd]]; [reflexivity|].
    destruct (is_not_None v); [|reflexivity].
    unfold bind, lift, echo. by rewrite Hd.
  - split; [reflexivity|]. split; [reflexivity|].
    split; [discriminate|]. split; [discriminate|]. by intros e' [= <-].
Qed.

(** X4. When the callable of a group raises, the group callback raises
    the same exception after that one call, the context keeps the
    receiver it had, nothing is written, and click does not get to the
    subcommand. *)
Theorem failing_group_keeps_context
    (g : Function) (r : Value) (args : list Value) (kwargs : list (string * Value))
    (h : Store) (w : World) (stack : list Context) (e : Exn) (subcommand : M Value) :
  w_stack w = stack ++ [{| ctx_obj := r |}] ->
  behaviour (w_calls w) g (r :: args) kwargs = Raised e ->
  exists grp : Node,
    __create_client_group (VFunction g) h = (Returned (length h), h ++ [grp]) /\
    let after :=
      {| w_calls := w_calls w ++
           [{| call_fn := g; call_args := r :: args; call_kwargs := kwargs |}];
         w_stdout := w_stdout w; w_stack := stack ++ [{| ctx_obj := r |}] |} in
    invoke behaviour dumps grp args kwargs w = (Raised e, after) /\
    group_invoke behaviour dumps grp args kwargs subcommand w = (Raised e, after).
Proof.
  intros Hs He. eexists. split; [apply create_client_group_builds|].
  assert (Hrun : invoke behaviour dumps (expected_node GroupNode (VFunction g) [])
                   args kwargs w =
                 (Raised e,
                  {| w_calls := w_calls w ++
                       [{| call_fn := g; call_args := r :: args; call_kwargs := kwargs |}];
                     w_stdout := w_stdout w; w_stack := stack ++ [{| ctx_obj := r |}] |})).
  { unfold invoke, run_callback. simpl.
    rewrite (group_new_func_run behaviour g r args kwargs w stack Hs). simpl.
    by rewrite He, Hs. }
  simpl. split; [exact Hrun|]. unfold group_invoke, bind. by rewrite Hrun.
Qed.

(** A group that returns, followed by a subcommand: the subcommand runs
    in a new context holding what the group returned, and that context
    is left when it is done. *)
Lemma group_invoke_run
    (g : Function) (r v : Value) (args : list Value) (kwargs : list (string * Value))
    (grp : Node) (w : World) (stack : list Context) (subcommand : M Value) :
  cb_code (node_callback grp) = GroupNewFunc (VFunction g) ->
  w_stack w = stack ++ [{| ctx_obj := r |}] ->
  behaviour (w_calls w) g (r :: args) kwargs = Returned v ->
  group_invoke behaviour dumps grp args kwargs subcommand w =
  let inside :=
    subcommand
      {| w_calls := w_calls w ++
           [{| call_fn := g; call_args := r :: args; call_kwargs := kwargs |}];
         w_stdout := w_stdout w;
         w_stack := (stack ++ [{| ctx_obj := v |}]) ++ [{| ctx_obj := v |}] |} in
  (inside.1, leave inside.2).
Proof.
  intros Hcode Hs Hv. unfold group_invoke, invoke, run_callback. rewrite Hcode.
  unfold bind at 1. rewrite (group_new_func_run behaviour g r args kwargs w stack Hs).
  simpl. rewrite Hv.
  set (w1 := {| w_calls := _; w_stdout := _; w_stack := stack ++ [{| ctx_obj := v |}] |}).
  unfold make_context, bind.
  rewrite (current_context_top w1 stack {| ctx_obj := v |} eq_refl).
  rewrite (current_obj_top w1 stack {| ctx_obj := v |} eq_refl).
  unfold ret, with_context, enter. simpl.
  by destruct (subcommand _).
Qed.

(** X5. Groups nest: with a group inside a group, the outer callable is
    called on the receiver of the root, the inner one on what the outer
    returned, and the leaf on what the inner returned; afterwards only
    the context the outer group ran in is left, holding the outer
    result. *)
Theorem nested_groups_pass_receivers_down
    (g1 g2 f : Function) (r v1 v2 : Value) (args : list Value)
    (kwargs : list (string * Value)) (h : Store) (w : World) (stack : list Context) :
  let call1 := {| call_fn := g1; call_args := [r]; call_kwargs := [] |} in
  let call2 := {| call_fn := g2; call_args := [v1]; call_kwargs := [] |} in
  let call3 := {| call_fn := f; call_args := v2 :: args; call_kwargs := kwargs |} in
  w_stack w = stack ++ [{| ctx_obj := r |}] ->
  behaviour (w_calls w) g1 [r] [] = Returned v1 ->
  behaviour (w_calls w ++ [call1]) g2 [v1] [] = Returned v2 ->
  exists outer inner leaf : Node,
    __create_client_group (VFunction g1) h = (Returned (length h), h ++ [outer]) /\
    __create_client_group (VFunction g2) h = (Returned (length h), h ++ [inner]) /\
    __create_client_command (VFunction f) h = (Returned (length h), h ++ [leaf]) /\
    let run :=
      group_invoke behaviour dumps outer [] []
        (group_invoke behaviour dumps inner [] []
           (invoke behaviour dumps leaf args kwargs)) w in
    w_calls run.2 = w_calls w ++ [call1; call2; call3] /\
    w_stack run.2 = stack ++ [{| ctx_obj := v1 |}] /\
    (forall e, behaviour (w_calls w ++ [call1; call2]) f (v2 :: args) kwargs = Raised e ->
               run.1 = Raised e).
Proof.
  intros call1 call2 call3 Hs H1 H2. do 3 eexists.
  split; [apply create_client_group_builds|].
  split; [apply create_client_group_builds|].
  split; [apply create_client_command_builds|].
  rewrite (group_invoke_run g1 r v1 [] [] (expected_node GroupNode (VFunction g1) [])
             w stack _ eq_refl Hs H1).
  cbv zeta.
  set (w1 := {| w_calls := _; w_stdout := _;
                w_stack := (stack ++ [{| ctx_obj := v1 |}]) ++ [{| ctx_obj := v1 |}] |}).
  rewrite (group_invoke_run g2 v1 v2 [] [] (expected_node GroupNode (VFunction g2) [])
             w1 (stack ++ [{| ctx_obj := v1 |}]) _ eq_refl eq_refl H2).
  cbv zeta.
  set (w2 := {| w_calls := _; w_stdout := _; w_stack := (_ ++ [{| ctx_obj := v2 |}]) ++ _ |}).
  change (invoke behaviour dumps (expected_node CommandNode (VFunction f) []))
    with (command_new_func behaviour dumps (VFunction f)).
  rewrite (command_new_func_run behaviour dumps f v2 args kwargs w2
             ((stack ++ [{| ctx_obj := v1 |}]) ++ [{| ctx_obj := v2 |}]) eq_refl).
  simpl w_calls. rewrite <- !app_assoc. simpl app.
  destruct (behaviour _ f (v2 :: args) kwargs) as [x|e]; simpl;
    [destruct x; simpl; try (destruct (dumps _); simpl)|];
    unfold leave; simpl; rewrite !pop_push;
    (split; [reflexivity|split; [reflexivity|]]);
    intros e' He'; congruence.
Qed.

End Wrappers.

(** ** More on the tree builder *)

Lemma pull_created (n : nat) (items : list Value) (h : Store) :
  pull (S n) (GenCreated (VList items)) h = pull (S n) (GenSuspended items) h.
Proof. reflexivity. Qed.

Lemma pull_prefix (good : list Value) (ds : list Descriptor) :
  Forall2 represents good ds ->
  forall (tail : list Value) (h : Store),
    pull (length good) (GenSuspended (good ++ tail)) h =
    (Returned (roots (length h) ds), GenSuspended tail,
     h ++ layout_forest (length h) ds).
Proof.
  induction 1 as [|cmd d good ds Hcmd _ IH]; intros tail h.
  - simpl. by rewrite app_nil_r.
  - simpl. rewrite (construct_command_layout d cmd h Hcmd). rewrite IH.
    rewrite length_app, layout_length. by rewrite <- app_assoc.
Qed.

Lemma pull_failure (good : list Value) (ds : list Descriptor)
    (bad : Value) (rest : list Value) (e : Exn) (h_bad : Store) :
  Forall2 represents good ds ->
  forall (h : Store) (extra : nat),
    construct_command bad (h ++ layout_forest (length h) ds) = (Raised e, h_bad) ->
    pull (S (length good + extra)) (GenSuspended (good ++ bad :: rest)) h =
    (Raised e, GenFinished, h_bad).
Proof.
  induction 1 as [|cmd d good ds Hcmd _ IH]; intros h extra Hbad.
  - simpl in *. rewrite app_nil_r in Hbad. by rewrite Hbad.
  - simpl length. simpl Nat.add.
    change (pull (S (S (length good + extra)))
              (GenSuspended ((cmd :: good) ++ bad :: rest)) h)
      with (match resume (cmd :: good ++ bad :: rest) h with
            | (Returned (Some node), g', h') =>
                match pull (S (length good + extra)) g' h' with
                | (Returned nodes, g'', h'') => (Returned (node :: nodes), g'', h'')
                | (Raised e, g'', h'') => (Raised e, g'', h'')
                end
            | (Returned None, g', h') => (Returned [], g', h')
            | (Raised e, g', h') => (Raised e, g', h')
            end).
    simpl resume. rewrite (construct_command_layout d cmd h Hcmd).
    rewrite IH; [reflexivity|].
    rewrite length_app, layout_length, <- app_assoc. exact Hbad.
Qed.

(** X6. The generator does not look ahead: as many calls of [next] as
    there are well-formed descriptors at the front build exactly their
    trees and yield their roots, whatever comes after them in the
    sequence, well formed or not. *)
Theorem later_descriptors_do_not_matter
    (good : list Value) (ds : list Descriptor) (tail : list Value) (h : Store) :
  Forall2 represents good ds ->
  let run := pull (length good) (construct_commands (VList (good ++ tail))) h in
  run.1.1 = Returned (roots (length h) ds) /\
  run.2 = h ++ layout_forest (length h) ds /\
  pending run.1.2 = length tail.
Proof.
  intros Hrep. destruct good as [|cmd good].
  - apply Forall2_nil_inv_l in Hrep as ->. simpl. by rewrite app_nil_r.
  - unfold construct_commands. simpl length. rewrite pull_created.
    change (S (length good)) with (length (cmd :: good)).
    by rewrite (pull_prefix (cmd :: good) ds Hrep).
Qed.

(** X7. The generator stops at the first descriptor that fails: the
    exception of that round comes out of [next] (and of [list]) after the
    trees of the descriptors before it were built, the generator is
    finished, and the descriptors after it are never looked at. *)
Theorem construct_commands_stops_at_failure
    (good : list Value) (ds : list Descriptor) (bad : Value) (rest : list Value)
    (h h_bad : Store) (e : Exn) :
  Forall2 represents good ds ->
  construct_command bad (h ++ layout_forest (length h) ds) = (Raised e, h_bad) ->
  let gen := construct_commands (VList (good ++ bad :: rest)) in
  (forall n, length good < n -> pull n gen h = (Raised e, GenFinished, h_bad)) /\
  to_list gen h = (Raised e, GenFinished, h_bad) /\
  next GenFinished h_bad = (Returned None, GenFinished, h_bad).
Proof.
  intros Hrep Hbad gen.
  assert (Hpull : forall n, length good < n ->
            pull n gen h = (Raised e, GenFinished, h_bad)).
  { intros [|n] Hn; [lia|]. unfold gen, construct_commands. rewrite pull_created.
    replace n with (length good + (n - length good)) by lia.
    by apply (pull_failure good ds). }
  split; [exact Hpull|]. split; [|reflexivity].
  unfold to_list. apply Hpull. unfold gen. simpl. rewrite length_app. simpl. lia.
Qed.

(** X8. A dict with a [context] entry whose [commands] entry is missing,
    or is a value that cannot be iterated, fails only after its group
    was created: the round raises [KeyError] or [TypeError] and leaves
    the new group in the store, without children. *)
Theorem malformed_group_raises_after_creating_it
    (entries : list (string * Value)) (context : Value) (h : Store) :
  dict_get "context" entries = Some context ->
  (dict_get "commands" entries = None ->
   construct_command (VDict entries) h =
   (Raised (KeyError "commands"), h ++ [expected_node GroupNode context []])) /\
  (forall commands e,
     dict_get "commands" entries = Some commands -> iter commands = Raised e ->
     construct_command (VDict entries) h =
     (Raised TypeError, h ++ [expected_node GroupNode context []])).
Proof.
  intros Hctx. rewrite (construct_command_internal entries context Hctx).
  rewrite (bind_returned _ _ h (h ++ [expected_node GroupNode context []]) (length h))
    by apply create_client_group_builds.
  split.
  - intros Hcmds. by rewrite (getitem_missing entries "commands" _ Hcmds).
  - intros commands e Hcmds Hiter.
    rewrite (getitem_found entries "commands" _ commands Hcmds).
    by destruct commands.
Qed.

Lemma roots_leaves (items : list Value) (base : nat) :
  roots base (map Leaf items) = seq base (length items).
Proof.
  revert base. induction items as [|x items IH]; intros base; simpl; [reflexivity|].
  by rewrite IH, Nat.add_1_r.
Qed.

Lemma layout_forest_leaves (items : list Value) (base : nat) :
  layout_forest base (map Leaf items) =
  map (fun x => expected_node CommandNode x []) items.
Proof.
  revert base. induction items as [|x items IH]; intros base; simpl; [reflexivity|].
  by rewrite IH.
Qed.

Lemma represents_leaves (items : list Value) :
  Forall (fun x => isinstance_dict x && contains "context" x = false) items ->
  Forall2 represents items (map Leaf items).
Proof.
  induction 1 as [|x items Hx _ IH]; simpl; constructor; [by constructor|exact IH].
Qed.

(** X9. The [commands] entry need not be a list: a string is iterated
    character by character and a dict key by key. The round does not
    fail: behind the group it creates one command per character or key,
    in order, each wrapping that string, and all of them under the one
    name of the wrapper itself, since a string has no name to give. *)
Theorem string_commands_become_leaves
    (entries : list (string * Value)) (context commands : Value)
    (items : list Value) (h : Store) :
  dict_get "context" entries = Some context ->
  dict_get "commands" entries = Some commands ->
  match commands with VStr _ | VDict _ => True | _ => False end ->
  iter commands = Returned items ->
  exists grp : Node,
    construct_command (VDict entries) h =
    (Returned (length h),
     h ++ grp :: map (fun x => expected_node CommandNode x []) items) /\
    detach grp = expected_node GroupNode context [] /\
    Forall (fun x => exists s, x = VStr s) items /\
    Forall (fun x => node_name (expected_node CommandNode x []) = "new_func" /\
                     cb_wrapped (node_callback (expected_node CommandNode x []))
                     = Some x) items.
Proof.
  intros Hctx Hcmds Hkind Hiter.
  assert (Hstr : Forall (fun x => exists s, x = VStr s) items).
  { destruct commands as [| | |s|l|es| | | |]; try done; simpl in Hiter;
      injection Hiter as <-.
    - clear Hcmds. induction s as [|c s IHs]; simpl.
      + apply Forall_nil_2.
      + apply Forall_cons_2; [by eexists|exact IHs].
    - unfold keys. apply Forall_fmap, Forall_forall. intros e _. by eexists. }
  assert (Hall : Forall (fun x => isinstance_dict x && contains "context" x = false) items).
  { eapply Forall_impl; [exact Hstr|]. simpl. by intros x [s ->]. }
  assert (Hsame : forall grp s,
            attach_all __create_client_command grp items s =
            attach_all construct_command grp items s).
  { intros grp s. unfold attach_all.
    rewrite (for_each_ext
               (fun child => bind (__create_client_command child)
                               (fun child_cmd => add_command grp child_cmd))
               (fun child => bind (construct_command child)
                               (fun child_cmd => add_command grp child_cmd)) items);
      [reflexivity|].
    eapply Forall_impl; [exact Hall|]. simpl. intros x Hx.
    by rewrite (construct_command_leaf x Hx). }
  exists (expected_node GroupNode context (seq (S (length h)) (length items))).
  split; [|split; [reflexivity|split; [exact Hstr|]]].
  - rewrite (construct_command_internal entries context Hctx).
    rewrite (bind_returned _ _ h (h ++ [expected_node GroupNode context []]) (length h))
      by apply create_client_group_builds.
    rewrite (getitem_found entries "commands" _ commands Hcmds).
    assert (Hloop : attach_all construct_command (length h) items
                      (h ++ [expected_node GroupNode context []]) =
                    (Returned tt,
                     h ++ expected_node GroupNode context
                            (seq (S (length h)) (length items))
                       :: map (fun x => expected_node CommandNode x []) items)).
    { rewrite (attach_all_layout context (map Leaf items)) with (items := items)
                                                                (attached := [])
                                                                (built := []).
      - simpl. by rewrite Nat.add_1_r, roots_leaves, layout_forest_leaves.
      - apply Forall_forall. intros d _ cmd h0. apply construct_command_layout.
      - by apply represents_leaves. }
    destruct commands as [| | |s|l|es| | | |]; try done; simpl in Hiter;
      injection Hiter as <-;
      rewrite (bind_returned _ _ _ _ tt (eq_trans (Hsame _ _) Hloop)); reflexivity.
  - eapply Forall_impl; [exact Hstr|]. simpl. by intros x [s ->].
Qed.

Lemma next_extends (g : Generator) (h : Store) :
  exists built : list Node, (next g h).2 = h ++ built.
Proof.
  assert (Hresume : forall cmds, exists built, (resume cmds h).2 = h ++ built).
  { intros [|cmd rest]; simpl; [exists []; by rewrite app_nil_r|].
    destruct (construct_command_extends cmd) as [Hext _].
    destruct (Hext h) as ([node|e] & built & ->); by exists built. }
  destruct g as [commands|cmds|]; simpl.
  - destruct (iter commands); [apply Hresume|]. exists []. by rewrite app_nil_r.
  - apply Hresume.
  - exists []. by rewrite app_nil_r.
Qed.

(** X10. Whatever it is given, well formed or not, and whether it ends
    well or in an exception, the generator only adds objects behind the
    ones that exist: every object that was in the store before is there
    unchanged after any number of calls of [next]. *)
Theorem generator_keeps_existing_objects (n : nat) :
  forall (g : Generator) (h : Store),
  exists built : list Node,
    (pull n g h).2 = h ++ built /\
    forall l node, h !! l = Some node -> (pull n g h).2 !! l = Some node.
Proof.
  assert (Hgoal : forall (h h' : Store) built,
            h' = h ++ built ->
            exists built0, h' = h ++ built0 /\
              forall l node, h !! l = Some node -> h' !! l = Some node).
  { intros h h' built ->. exists built. split; [reflexivity|].
    intros l node Hl. by apply lookup_app_l_Some. }
  induction n as [|n IH]; intros g h.
  - simpl. apply (Hgoal h h []). by rewrite app_nil_r.
  - simpl. destruct (next_extends g h) as [built1 H1].
    destruct (next g h) as [[[[node|]|e] g1] h1]; simpl in H1; subst h1; simpl.
    + destruct (IH g1 (h ++ built1)) as (built2 & H2 & _).
      destruct (pull n g1 (h ++ built1)) as [[[nodes|e] g2] h2]; simpl in *;
        subst h2; apply (Hgoal h _ (built1 ++ built2)); by rewrite app_assoc.
    + by apply (Hgoal h _ built1).
    + by apply (Hgoal h _ built1).
Qed.

Lemma child_locations_app (l1 l2 : list Node) :
  child_locations (l1 ++ l2) = child_locations l1 ++ child_locations l2.
Proof. unfold child_locations. by rewrite map_app, concat_app. Qed.

Lemma forest_locations (ds : list Descriptor) :
  Forall (fun d => forall base,
            base :: child_locations (layout base d) ≡ₚ seq base (descriptor_size d)) ds ->
  forall base,
    roots base ds ++ child_locations (layout_forest base ds) ≡ₚ seq base (forest_size ds).
Proof.
  induction 1 as [|d ds Hd _ IH]; intros base; simpl; [reflexivity|].
  rewrite child_locations_app, seq_app, <- (Hd base), <- (IH (base + descriptor_size d)).
  simpl. constructor. apply Permutation_app_swap_app.
Qed.

Lemma tree_locations (d : Descriptor) :
  forall base, base :: child_locations (layout base d) ≡ₚ seq base (descriptor_size d).
Proof.
  induction d as [f|c ds IH] using Descriptor_forall_ind; intros base.
  - reflexivity.
  - rewrite layout_internal, descriptor_size_internal. simpl. constructor.
    unfold child_locations. simpl. apply (forest_locations ds IH (S base)).
Qed.

Lemma forest_children_later (ds : list Descriptor) :
  Forall (fun d => forall base i n c,
            layout base d !! i = Some n -> c ∈ node_commands n -> base + i < c) ds ->
  forall base i n c,
    layout_forest base ds !! i = Some n -> c ∈ node_commands n -> base + i < c.
Proof.
  induction 1 as [|d ds Hd _ IH]; intros base i n c Hi Hc; simpl in Hi; [done|].
  apply lookup_app_Some in Hi as [Hi|[Hle Hi]].
  - by apply (Hd base i n c).
  - rewrite layout_length in Hle, Hi.
    pose proof (IH (base + descriptor_size d) (i - descriptor_size d) n c Hi Hc). lia.
Qed.

Lemma tree_children_later (d : Descriptor) :
  forall base i n c,
    layout base d !! i = Some n -> c ∈ node_commands n -> base + i < c.
Proof.
  induction d as [f|c0 ds IH] using Descriptor_forall_ind; intros base i n c Hi Hc.
  - destruct i; simpl in Hi; [|done]. injection Hi as <-. simpl in Hc.
    by apply elem_of_nil in Hc.
  - rewrite layout_internal in Hi. destruct i as [|i]; simpl in Hi.
    + injection Hi as <-. simpl in Hc.
      pose proof (roots_bounds ds (S base)) as Hb. rewrite Forall_forall in Hb.
      apply Hb in Hc. lia.
    + pose proof (forest_children_later ds IH (S base) i n c Hi Hc). lia.
Qed.

(** X11. What a run of the generator builds is a forest: every new
    object is either one of the yielded roots or the child of exactly one
    group, no object is attached twice, and a child is always created
    after the group it is attached to, so no group is its own
    descendant. *)
Theorem built_objects_form_a_forest
    (items : list Value) (ds : list Descriptor) (h : Store) :
  Forall2 represents items ds ->
  exists (yielded : list nat) (built : list Node),
    to_list (construct_commands (VList items)) h =
    (Returned yielded, GenFinished, h ++ built) /\
    yielded ++ child_locations built ≡ₚ seq (length h) (length built) /\
    NoDup (yielded ++ child_locations built) /\
    forall i n c, built !! i = Some n -> c ∈ node_commands n -> length h + i < c.
Proof.
  intros Hrep. exists (roots (length h) ds), (layout_forest (length h) ds).
  assert (Hperm : roots (length h) ds ++ child_locations (layout_forest (length h) ds)
                  ≡ₚ seq (length h) (length (layout_forest (length h) ds))).
  { rewrite layout_forest_size. apply forest_locations, Forall_forall.
    intros d _ base. apply tree_locations. }
  split; [by apply to_list_layout|]. split; [exact Hperm|]. split.
  - rewrite Hperm. apply NoDup_ListNoDup, List.seq_NoDup.
  - apply forest_children_later, Forall_forall. intros d _. apply tree_children_later.
Qed.

(** ** Discovery and the builder together *)

Lemma find_client_commands_loop_no_dict (obj : Object) (names : list string) :
  forall acc commands : list Value,
    find_client_commands_loop obj names acc = Returned commands ->
    Forall (fun v => isinstance_dict v = false) acc ->
    Forall (fun v => isinstance_dict v = false) commands.
Proof.
  induction names as [|name names IH]; intros acc commands; simpl.
  - by intros [= <-].
  - destruct (negb (startswith name "_")); [|apply IH].
    destruct (obj_getattr obj name) as [attr|e]; [|discriminate].
    destruct (isgeneratorfunction attr || isfunction attr || ismethod attr) eqn:Hk;
      [|apply IH].
    intros Hrun Hacc. apply (IH _ _ Hrun). apply Forall_app. split; [exact Hacc|].
    constructor; [|constructor]. by destruct attr.
Qed.

(** X12. What discovery returns can be handed to the builder as it is:
    a discovered value has passed one of the three tests of discovery,
    which no dict passes, so none is taken for a group, and the builder
    makes one command per discovered attribute, in the order discovery
    gave them, without failing. *)
Theorem discovered_commands_build_flat
    (obj : Object) (commands : list Value) (h : Store) :
  find_client_commands obj = Returned commands ->
  Forall (fun v => isinstance_dict v = false) commands /\
  to_list (construct_commands (VList commands)) h =
  (Returned (seq (length h) (length commands)), GenFinished,
   h ++ map (fun f => expected_node CommandNode f []) commands).
Proof.
  intros Hrun.
  assert (Hkinds : Forall (fun v => isinstance_dict v = false) commands).
  { apply (find_client_commands_loop_no_dict obj (dir obj) [] commands Hrun).
    constructor. }
  split; [exact Hkinds|].
  rewrite (to_list_layout commands (map Leaf commands)).
  - by rewrite roots_leaves, layout_forest_leaves.
  - apply represents_leaves. eapply Forall_impl; [exact Hkinds|].
    simpl. by intros v ->.
Qed.

(** ** More on discovery *)

#[global] Instance string_le_antisym : AntiSymm (=) string_le.
Proof. intros a b. apply String.leb_antisym. Qed.

Lemma find_client_commands_loop_agree (o1 o2 : Object) (names : list string) :
  (forall name, startswith name "_" = false -> obj_getattr o1 name = obj_getattr o2 name) ->
  forall acc, find_client_commands_loop o1 names acc = find_client_commands_loop o2 names acc.
Proof.
  intros Hagree. induction names as [|name names IH]; intros acc; simpl; [reflexivity|].
  destruct (startswith name "_") eqn:Hpub; simpl; [apply IH|].
  rewrite (Hagree name Hpub). destruct (obj_getattr o2 name) as [attr|e]; [|reflexivity].
  destruct (isgeneratorfunction attr || isfunction attr || ismethod attr); apply IH.
Qed.

(** X13. Discovery depends on nothing but the names the object lists and
    the values of the public ones: the order in which [__dir__] reports
    the names does not matter, and names that begin with an underscore
    are never resolved, so what they would resolve to, or whether
    resolving them fails, does not matter either. *)
Theorem discovery_depends_on_public_names_only (o1 o2 : Object) :
  obj_dir o1 ≡ₚ obj_dir o2 ->
  (forall name, startswith name "_" = false -> obj_getattr o1 name = obj_getattr o2 name) ->
  find_client_commands o1 = find_client_commands o2.
Proof.
  intros Hperm Hagree. unfold find_client_commands.
  assert (Hdir : dir o1 = dir o2).
  { unfold dir. apply (StronglySorted_unique string_le).
    - apply StronglySorted_merge_sort; apply _.
    - apply StronglySorted_merge_sort; apply _.
    - by rewrite !merge_sort_Permutation. }
  rewrite Hdir. by apply find_client_commands_loop_agree.
Qed.

Lemma find_client_commands_loop_raises (obj : Object) (before : list string)
    (name : string) (after : list string) (e : Exn) :
  (forall n, n ∈ before -> startswith n "_" = false ->
             exists attr, obj_getattr obj n = Returned attr) ->
  startswith name "_" = false -> obj_getattr obj name = Raised e ->
  forall acc, find_client_commands_loop obj (before ++ name :: after) acc = Raised e.
Proof.
  intros Hres Hpub Hraise. induction before as [|n before IH]; intros acc; simpl.
  - by rewrite Hpub, Hraise.
  - assert (Hrest : forall n0, n0 ∈ before -> startswith n0 "_" = false ->
              exists attr, obj_getattr obj n0 = Returned attr).
    { intros n0 Hn0. apply Hres. by right. }
    destruct (startswith n "_") eqn:Hn; simpl; [by apply IH|].
    destruct (Hres n) as [attr ->]; [by left|done|].
    destruct (isgeneratorfunction attr || isfunction attr || ismethod attr); by apply IH.
Qed.

(** X14. Discovery has no error handling: the first public name, in the
    sorted order of [dir], whose resolution raises ends it with that
    exception, and nothing found before it is returned. A private name
    that would raise does no harm. *)
Theorem discovery_raises_first_failure
    (obj : Object) (before : list string) (name : string) (after : list string)
    (e : Exn) :
  dir obj = before ++ name :: after ->
  (forall n, n ∈ before -> startswith n "_" = false ->
             exists attr, obj_getattr obj n = Returned attr) ->
  startswith name "_" = false ->
  obj_getattr obj name = Raised e ->
  find_client_commands obj = Raised e.
Proof.
  intros Hdir Hres Hpub Hraise. unfold find_client_commands. rewrite Hdir.
  by apply find_client_commands_loop_raises.
Qed.

(** ** A failure below a group *)

Lemma attach_all_app (build : Value -> B nat) (grp : nat) (l1 l2 : list Value) (s : Store) :
  attach_all build grp (l1 ++ l2) s =
  bind (attach_all build grp l1) (fun _ => attach_all build grp l2) s.
Proof.
  revert s. induction l1 as [|x l1 IH]; intros s; [reflexivity|].
  simpl app. rewrite !attach_all_cons. unfold bind at 1 3 4.
  destruct (bind (build x) _ s) as [[[]|e] s1]; [apply IH|reflexivity].
Qed.

(** X15. A failure in a child fails its group: when the round of one of
    the children raises, the round of the group raises the same
    exception and the group is not yielded. The children before the
    failing one were built and attached by then; the ones after it are
    never looked at. *)
Theorem failing_child_fails_its_group
    (entries : list (string * Value)) (context : Value)
    (good : list Value) (ds : list Descriptor) (bad : Value) (rest : list Value)
    (h h_bad : Store) (e : Exn) :
  dict_get "context" entries = Some context ->
  dict_get "commands" entries = Some (VList (good ++ bad :: rest)) ->
  Forall2 represents good ds ->
  construct_command bad
    (h ++ expected_node GroupNode context (roots (S (length h)) ds)
       :: layout_forest (S (length h)) ds) = (Raised e, h_bad) ->
  construct_command (VDict entries) h = (Raised e, h_bad).
Proof.
  intros Hctx Hcmds Hrep Hbad.
  rewrite (construct_command_internal entries context Hctx).
  rewrite (bind_returned _ _ h (h ++ [expected_node GroupNode context []]) (length h))
    by apply create_client_group_builds.
  rewrite (getitem_found entries "commands" _ _ Hcmds).
  apply bind_raised. rewrite attach_all_app.
  rewrite (bind_returned _ _ _
             (h ++ expected_node GroupNode context ([] ++ roots (length h + 1) ds)
                :: [] ++ layout_forest (length h + 1) ds) tt).
  - rewrite attach_all_cons. simpl app. rewrite Nat.add_1_r.
    apply bind_raised, bind_raised. exact Hbad.
  - apply (attach_all_layout context ds) with (attached := []) (built := []);
      [|exact Hrep].
    apply Forall_forall. intros d _ cmd h0. apply construct_command_layout.
Qed.

(** ** The additional theorems at work *)

Lemma uncallable_input_fails_at_invocation_witness :
  exists grp cmd : Node,
    __create_client_group (VProperty VNone) [] = (Returned 0, [grp]) /\
    __create_client_command (VProperty VNone) [] = (Returned 0, [cmd]) /\
    invoke demo_behaviour demo_dumps grp [] [] (initial_world client) =
    (Raised TypeError, initial_world client) /\
    invoke demo_behaviour demo_dumps cmd [] [] (initial_world client) =
    (Raised TypeError, initial_world client).
Proof.
  apply (uncallable_input_fails_at_invocation demo_behaviour demo_dumps
           (VProperty VNone) client [] [] [] (initial_world client) []);
    reflexivity.
Defined.

Lemma bound_method_receives_self_then_receiver_witness :
  exists cmd : Node,
    __create_client_command (VMethod list_fn accounts_client) [] = (Returned 0, [cmd]) /\
    w_calls (invoke demo_behaviour demo_dumps cmd [VInt 5] [] (initial_world client)).2 =
    [{| call_fn := list_fn; call_args := [accounts_client; client; VInt 5];
        call_kwargs := [] |}].
Proof.
  destruct (bound_method_receives_self_then_receiver demo_behaviour demo_dumps
              list_fn accounts_client client [VInt 5] [] [] (initial_world client) []
              eq_refl)
    as (grp & cmd & _ & Hcmd & _ & Hcalls & _).
  exists cmd. split; [exact Hcmd|exact Hcalls].
Defined.

Lemma failing_group_keeps_context_witness :
  exists grp : Node,
    __create_client_group (VFunction broken_fn) [] = (Returned 0, [grp]) /\
    group_invoke demo_behaviour demo_dumps grp [] [] (ret VNone) (initial_world client) =
    (Raised (ClientError 5),
     {| w_calls := [{| call_fn := broken_fn; call_args := [client]; call_kwargs := [] |}];
        w_stdout := []; w_stack := [{| ctx_obj := client |}] |}).
Proof.
  destruct (failing_group_keeps_context demo_behaviour demo_dumps broken_fn client
              [] [] [] (initial_world client) [] (ClientError 5) (ret VNone)
              eq_refl eq_refl)
    as (grp & Hgrp & _ & Hrun).
  exists grp. split; [exact Hgrp|exact Hrun].
Defined.

Lemma nested_groups_pass_receivers_down_witness :
  exists outer inner leaf : Node,
    __create_client_group (VFunction accounts_getter) [] = (Returned 0, [outer]) /\
    __create_client_group (VFunction list_fn) [] = (Returned 0, [inner]) /\
    __create_client_command (VFunction delete_fn) [] = (Returned 0, [leaf]) /\
    w_calls (group_invoke demo_behaviour demo_dumps outer [] []
               (group_invoke demo_behaviour demo_dumps inner [] []
                  (invoke demo_behaviour demo_dumps leaf [] []))
               (initial_world client)).2 =
    [{| call_fn := accounts_getter; call_args := [client]; call_kwargs := [] |};
     {| call_fn := list_fn; call_args := [accounts_client]; call_kwargs := [] |};
     {| call_fn := delete_fn; call_args := [VList [VDict [("id", VInt 1)]]];
        call_kwargs := [] |}].
Proof.
  destruct (nested_groups_pass_receivers_down demo_behaviour demo_dumps
              accounts_getter list_fn delete_fn client accounts_client
              (VList [VDict [("id", VInt 1)]]) [] [] [] (initial_world client) []
              eq_refl eq_refl eq_refl)
    as (outer & inner & leaf & H1 & H2 & H3 & Hcalls & _).
  by exists outer, inner, leaf.
Defined.

Lemma later_descriptors_do_not_matter_witness :
  (pull 1 (construct_commands
             (VList ([VFunction list_fn] ++ [VDict [("context", VNone)]; VInt 3]))) []).2 =
  [expected_node CommandNode (VFunction list_fn) []].
Proof.
  assert (Hrep : Forall2 represents [VFunction list_fn] [Leaf (VFunction list_fn)]).
  { repeat econstructor. }
  destruct (later_descriptors_do_not_matter [VFunction list_fn] [Leaf (VFunction list_fn)]
              [VDict [("context", VNone)]; VInt 3] [] Hrep)
    as (_ & Hstore & _).
  exact Hstore.
Defined.

Lemma construct_commands_stops_at_failure_witness :
  to_list (construct_commands
             (VList ([VFunction list_fn] ++
                     VDict [("context", accounts_property)] :: [VFunction delete_fn]))) [] =
  (Raised (KeyError "commands"), GenFinished,
   [expected_node CommandNode (VFunction list_fn) [];
    expected_node GroupNode accounts_property []]).
Proof.
  assert (Hrep : Forall2 represents [VFunction list_fn] [Leaf (VFunction list_fn)]).
  { repeat econstructor. }
  destruct (construct_commands_stops_at_failure [VFunction list_fn]
              [Leaf (VFunction list_fn)] (VDict [("context", accounts_property)])
              [VFunction delete_fn] []
              [expected_node CommandNode (VFunction list_fn) [];
               expected_node GroupNode accounts_property []]
              (KeyError "commands") Hrep eq_refl)
    as (_ & Hlist & _).
  exact Hlist.
Defined.

Lemma malformed_group_raises_after_creating_it_witness :
  construct_command (VDict [("context", accounts_property)]) [] =
  (Raised (KeyError "commands"), [expected_node GroupNode accounts_property []]) /\
  construct_command (VDict [("context", accounts_property); ("commands", VNone)]) [] =
  (Raised TypeError, [expected_node GroupNode accounts_property []]).
Proof.
  split.
  - destruct (malformed_group_raises_after_creating_it
                [("context", accounts_property)] accounts_property [] eq_refl)
      as [Hmissing _].
    apply Hmissing. reflexivity.
  - destruct (malformed_group_raises_after_creating_it
                [("context", accounts_property); ("commands", VNone)]
                accounts_property [] eq_refl)
      as [_ Hbad].
    apply (Hbad VNone TypeError); reflexivity.
Defined.

Lemma string_commands_become_leaves_witness :
  exists grp : Node,
    construct_command
      (VDict [("context", accounts_property); ("commands", VStr "ab")]) [] =
    (Returned 0,
     [grp; expected_node CommandNode (VStr "a") [];
      expected_node CommandNode (VStr "b") []]) /\
    detach grp = expected_node GroupNode accounts_property [].
Proof.
  destruct (string_commands_become_leaves
              [("context", accounts_property); ("commands", VStr "ab")]
              accounts_property (VStr "ab") [VStr "a"; VStr "b"] []
              eq_refl eq_refl I eq_refl)
    as (grp & Hrun & Hgrp & _).
  by exists grp.
Defined.

Lemma built_objects_form_a_forest_witness :
  exists (yielded : list nat) (built : list Node),
    to_list (construct_commands (VList demo_commands)) [] =
    (Returned yielded, GenFinished, built) /\
    NoDup (yielded ++ child_locations built).
Proof.
  assert (Hrep : Forall2 represents demo_commands demo_descriptors).
  { repeat econstructor. }
  destruct (built_objects_form_a_forest demo_commands demo_descriptors [] Hrep)
    as (yielded & built & Hrun & _ & Hnodup & _).
  by exists yielded, built.
Defined.

Lemma discovered_commands_build_flat_witness :
  to_list (construct_commands
             (VList [VMethod delete_fn accounts_client; VMethod list_fn accounts_client;
                     VMethod stream_fn accounts_client])) [] =
  (Returned [0; 1; 2], GenFinished,
   [expected_node CommandNode (VMethod delete_fn accounts_client) [];
    expected_node CommandNode (VMethod list_fn accounts_client) [];
    expected_node CommandNode (VMethod stream_fn accounts_client) []]).
Proof.
  destruct (discovered_commands_build_flat accounts_object
              [VMethod delete_fn accounts_client; VMethod list_fn accounts_client;
               VMethod stream_fn accounts_client] [] eq_refl)
    as [_ Hbuild].
  exact Hbuild.
Defined.

Lemma discovery_depends_on_public_names_only_witness :
  find_client_commands accounts_object =
  find_client_commands
    {| obj_dir := reverse (obj_dir accounts_object);
       obj_getattr := fun name =>
         if startswith name "_" then Raised (AttributeError name)
         else obj_getattr accounts_object name |}.
Proof.
  apply discovery_depends_on_public_names_only.
  - simpl. by rewrite reverse_Permutation.
  - intros name Hpub. simpl. by rewrite Hpub.
Defined.

Lemma discovery_raises_first_failure_witness :
  find_client_commands flaky_object = Raised (ClientError 8).
Proof.
  apply (discovery_raises_first_failure flaky_object ["_hidden"; "alpha"] "beta" ["zeta"]).
  - reflexivity.
  - intros n Hn Hpub.
    apply elem_of_cons in Hn as [->|Hn]; [discriminate|].
    apply elem_of_cons in Hn as [->|Hn]; [eexists; reflexivity|].
    by apply elem_of_nil in Hn.
  - reflexivity.
  - reflexivity.
Defined.

Lemma failing_child_fails_its_group_witness :
  construct_command
    (VDict [("context", accounts_property);
            ("commands", VList ([VFunction list_fn] ++
                                VDict [("context", VNone)] :: [VFunction delete_fn]))]) [] =
  (Raised (KeyError "commands"),
   [expected_node GroupNode accounts_property [1];
    expected_node CommandNode (VFunction list_fn) [];
    expected_node GroupNode VNone []]).
Proof.
  assert (Hrep : Forall2 represents [VFunction list_fn] [Leaf (VFunction list_fn)]).
  { repeat econstructor. }
  apply (failing_child_fails_its_group
           [("context", accounts_property);
            ("commands", VList ([VFunction list_fn] ++
                                VDict [("context", VNone)] :: [VFunction delete_fn]))]
           accounts_property [VFunction list_fn] [Leaf (VFunction list_fn)]
           (VDict [("context", VNone)]) [VFunction delete_fn] [] _ _
           eq_refl eq_refl Hrep).
  reflexivity.
Defined.
